(** * Awladna front end: chat sessions, the message pipeline and the offline outbox

    A shallow embedding of
      - [src/context/ChatContext.tsx]   (the session store),
      - [src/api/chat.ts]               ([fetchChatResponse]),
      - [src/hooks/useChatMessages.ts]  ([addUserMessage], [addAIMessage]),
      - [src/pages/Chat.tsx]            ([sendMessage]),
      - [src/utils/outboxStore.ts]      (the IndexedDB outbox),
      - [public/service-worker.js]      (the "online" handler),
    followed by the properties of these functions.

    Conventions.  A [string] is a sequence of code units below 256.  The
    browser (clock, local storage, network, IndexedDB, toasts) and the React
    state (context, hook and page state) live in one record [World]; a
    JavaScript function is a computation in the monad [Js], which threads the
    world and either returns or throws. *)

From Stdlib Require Import ZArith QArith Ascii String Sorted OrderedTypeEx.
From stdpp Require Import base option list strings pretty gmap.

Local Open Scope string_scope.
Local Open Scope list_scope.
Local Open Scope Z_scope.

(** ** JavaScript built-ins used by the sources *)

Module Builtin.

(** [WhiteSpace] and [LineTerminator] code units below 256: TAB, LF, VT,
    FF, CR, SP and NBSP. *)
Definition is_white_space (c : ascii) : bool :=
  let n := N_of_ascii c in
  ((9 <=? n)%N && (n <=? 13)%N) || (n =? 32)%N || (n =? 160)%N.

Fixpoint trimStart (s : string) : string :=
  match s with
  | EmptyString => EmptyString
  | String c s' => if is_white_space c then trimStart s' else s
  end.

Definition trimEnd (s : string) : string :=
  String.rev (trimStart (String.rev s)).

(** [String.prototype.trim] *)
Definition trim (s : string) : string := trimEnd (trimStart s).

(** Truthiness of a string: every string but the empty one. *)
Definition truthy (s : string) : bool :=
  match s with EmptyString => false | String _ _ => true end.

(** Truthiness of [string | null]. *)
Definition truthy_opt (o : option string) : bool :=
  match o with Some s => truthy s | None => false end.

(** [Number.prototype.toString] on an integral time value. *)
Definition toString (n : Z) : string := pretty n.

(** Left-pads a non-negative integer with zeros to [w] digits. *)
Fixpoint zeros (n : nat) : string :=
  match n with O => "" | S n' => String "0" (zeros n') end.

Definition pad (w : nat) (n : Z) : string :=
  let s := pretty n in zeros (w - String.length s) +:+ s.

(** Civil date of a day number counted from 1970-01-01 (proleptic
    Gregorian calendar). *)
Definition civil_from_days (days : Z) : Z * Z * Z :=
  let z := days + 719468 in
  let era := z / 146097 in
  let doe := z - era * 146097 in
  let yoe := (doe - doe / 1460 + doe / 36524 - doe / 146096) / 365 in
  let doy := doe - (365 * yoe + yoe / 4 - yoe / 100) in
  let mp := (5 * doy + 2) / 153 in
  let d := doy - (153 * mp + 2) / 5 + 1 in
  let m := if mp <? 10 then mp + 3 else mp - 9 in
  let y := yoe + era * 400 + (if m <=? 2 then 1 else 0) in
  (y, m, d).

Definition year_string (y : Z) : string :=
  if (0 <=? y) && (y <=? 9999) then pad 4 y
  else if y <? 0 then "-" +:+ pad 6 (- y)
  else "+" +:+ pad 6 y.

(** [Date.prototype.toISOString] of the time value [t] (milliseconds since
    the epoch, UTC). *)
Definition toISOString (t : Z) : string :=
  let days := t / 86400000 in
  let ms := t mod 86400000 in
  let '(y, m, d) := civil_from_days days in
  year_string y +:+ "-" +:+ pad 2 m +:+ "-" +:+ pad 2 d +:+ "T" +:+
  pad 2 (ms / 3600000) +:+ ":" +:+ pad 2 (ms / 60000 mod 60) +:+ ":" +:+
  pad 2 (ms / 1000 mod 60) +:+ "." +:+ pad 3 (ms mod 1000) +:+ "Z".

End Builtin.

(** ** Data model *)

(** [ChatMessage] of [ChatContext.tsx] (the same shape as [Message] in
    [types/chat.ts]).  A sentiment score is carried as it came from the
    server and never computed on. *)
Module ChatMessage.
Record t := mk {
  id : string;
  text : string;
  fromChild : bool;
  timestamp : string;
  sentiment : option string;
  sentiment_score : option Q;
  suggestions : option (list string)
}.
End ChatMessage.

(** [Chat] of [ChatContext.tsx]: one session. *)
Module Chat.
Record t := mk {
  id : string;
  messages : list ChatMessage.t
}.
End Chat.

(** [AIResponse] of [api/chat.ts]. *)
Module AIResponse.
Record t := mk {
  response : string;
  sentiment : string;
  sentiment_score : Q;
  suggested_actions : list string
}.
End AIResponse.

(** *** IndexedDB keys and the outbox object store *)

(** The keys a record of the outbox can have: numbers, integral here (from
    the key generator or from the message), and strings (from the message,
    such as the [id] of a [ChatMessage]). *)
Inductive IDBKey :=
| NumKey (n : Z)
| StrKey (s : string).

(** The order of IndexedDB keys: every number is below every string,
    numbers by value, strings code unit by code unit. *)
Definition key_compare (a b : IDBKey) : comparison :=
  match a, b with
  | NumKey x, NumKey y => Z.compare x y
  | NumKey _, StrKey _ => Lt
  | StrKey _, NumKey _ => Gt
  | StrKey x, StrKey y => String.compare x y
  end.

(** A message handed to the outbox ([msg: any]): its [id] property when it
    has one, and its text. *)
Record OutboxMsg := {
  msg_id : option IDBKey;
  msg_text : string
}.

(** The object store ["outbox"], created with [keyPath: "id"] and
    [autoIncrement: true]: its records in ascending key order, each stored
    value carrying its key in [id], and the current number of its key
    generator. *)
Record ObjectStore := {
  records : list (IDBKey * string);
  generator : Z
}.

Definition empty_store : ObjectStore := {| records := []; generator := 1 |}.

(** *** The network *)

(** The value given to [JSON.stringify] for the body of a request. *)
Inductive Json :=
| ChatInput (user_input : string)
| Queued (m : OutboxMsg).

Record Request := {
  url : string;
  method : string;
  headers : list (string * string);
  body : Json
}.

(** A response: its status, its body as [res.text()] reads it, and as
    [res.json()] parses it ([None] when the body is not JSON). *)
Record Response := {
  status : Z;
  body_text : string;
  body_json : option AIResponse.t
}.

(** [fetch] resolves with a response, of any status, or rejects when the
    request could not be made. *)
Inductive FetchResult :=
| Resolved (r : Response)
| Rejected.

(** [Response.ok] *)
Definition ok (r : Response) : bool := (200 <=? status r) && (status r <=? 299).

(** *** The world *)

Record World := {
  (* import.meta.env *)
  VITE_API_URL : string;
  (* the clock: the reading of the n-th look at it, and the looks so far *)
  clock : nat -> Z;
  clock_reads : nat;
  (* window.localStorage *)
  localStorage : gmap string string;
  (* the network: what it answers to a request after the requests made so
     far, and the requests made so far *)
  server : list Request -> Request -> FetchResult;
  requests : list Request;
  (* react-hot-toast *)
  toasts : list string;
  (* IndexedDB, database "chatApp" *)
  outbox : ObjectStore;
  (* ChatProvider *)
  chats : list Chat.t;
  currentChatId : option string;
  (* useChatMessages *)
  messages : list ChatMessage.t;
  isLoading : bool;
  (* Chat *)
  input : string;
  isTyping : bool
}.

Definition with_clock_reads (n : nat) (w : World) : World :=
  {| VITE_API_URL := VITE_API_URL w; clock := clock w; clock_reads := n;
     localStorage := localStorage w; server := server w;
     requests := requests w; toasts := toasts w; outbox := outbox w;
     chats := chats w; currentChatId := currentChatId w;
     messages := messages w; isLoading := isLoading w;
     input := input w; isTyping := isTyping w |}.

Definition with_requests (l : list Request) (w : World) : World :=
  {| VITE_API_URL := VITE_API_URL w; clock := clock w;
     clock_reads := clock_reads w;
     localStorage := localStorage w; server := server w;
     requests := l; toasts := toasts w; outbox := outbox w;
     chats := chats w; currentChatId := currentChatId w;
     messages := messages w; isLoading := isLoading w;
     input := input w; isTyping := isTyping w |}.

Definition with_toasts (l : list string) (w : World) : World :=
  {| VITE_API_URL := VITE_API_URL w; clock := clock w;
     clock_reads := clock_reads w;
     localStorage := localStorage w; server := server w;
     requests := requests w; toasts := l; outbox := outbox w;
     chats := chats w; currentChatId := currentChatId w;
     messages := messages w; isLoading := isLoading w;
     input := input w; isTyping := isTyping w |}.

Definition with_outbox (o : ObjectStore) (w : World) : World :=
  {| VITE_API_URL := VITE_API_URL w; clock := clock w;
     clock_reads := clock_reads w;
     localStorage := localStorage w; server := server w;
     requests := requests w; toasts := toasts w; outbox := o;
     chats := chats w; currentChatId := currentChatId w;
     messages := messages w; isLoading := isLoading w;
     input := input w; isTyping := isTyping w |}.

Definition with_chats (l : list Chat.t) (w : World) : World :=
  {| VITE_API_URL := VITE_API_URL w; clock := clock w;
     clock_reads := clock_reads w;
     localStorage := localStorage w; server := server w;
     requests := requests w; toasts := toasts w; outbox := outbox w;
     chats := l; currentChatId := currentChatId w;
     messages := messages w; isLoading := isLoading w;
     input := input w; isTyping := isTyping w |}.

Definition with_currentChatId (o : option string) (w : World) : World :=
  {| VITE_API_URL := VITE_API_URL w; clock := clock w;
     clock_reads := clock_reads w;
     localStorage := localStorage w; server := server w;
     requests := requests w; toasts := toasts w; outbox := outbox w;
     chats := chats w; currentChatId := o;
     messages := messages w; isLoading := isLoading w;
     input := input w; isTyping := isTyping w |}.

Definition with_messages (l : list ChatMessage.t) (w : World) : World :=
  {| VITE_API_URL := VITE_API_URL w; clock := clock w;
     clock_reads := clock_reads w;
     localStorage := localStorage w; server := server w;
     requests := requests w; toasts := toasts w; outbox := outbox w;
     chats := chats w; currentChatId := currentChatId w;
     messages := l; isLoading := isLoading w;
     input := input w; isTyping := isTyping w |}.

Definition with_isLoading (b : bool) (w : World) : World :=
  {| VITE_API_URL := VITE_API_URL w; clock := clock w;
     clock_reads := clock_reads w;
     localStorage := localStorage w; server := server w;
     requests := requests w; toasts := toasts w; outbox := outbox w;
     chats := chats w; currentChatId := currentChatId w;
     messages := messages w; isLoading := b;
     input := input w; isTyping := isTyping w |}.

Definition with_input (s : string) (w : World) : World :=
  {| VITE_API_URL := VITE_API_URL w; clock := clock w;
     clock_reads := clock_reads w;
     localStorage := localStorage w; server := server w;
     requests := requests w; toasts := toasts w; outbox := outbox w;
     chats := chats w; currentChatId := currentChatId w;
     messages := messages w; isLoading := isLoading w;
     input := s; isTyping := isTyping w |}.

Definition with_isTyping (b : bool) (w : World) : World :=
  {| VITE_API_URL := VITE_API_URL w; clock := clock w;
     clock_reads := clock_reads w;
     localStorage := localStorage w; server := server w;
     requests := requests w; toasts := toasts w; outbox := outbox w;
     chats := chats w; currentChatId := currentChatId w;
     messages := messages w; isLoading := isLoading w;
     input := input w; isTyping := b |}.

(** ** The monad of JavaScript computations *)

Inductive JsError :=
| Error (message : string)
| TypeError (message : string)
| SyntaxError (message : string)
| ConstraintError.

Inductive Completion (A : Type) :=
| Normal (a : A)
| Throw (e : JsError).
Arguments Normal {A} a.
Arguments Throw {A} e.

Definition Js (A : Type) : Type := World -> Completion A * World.

#[global] Instance Js_ret : MRet Js := fun A a w => (Normal a, w).

#[global] Instance Js_bind : MBind Js := fun A B f m w =>
  match m w with
  | (Normal a, w') => f a w'
  | (Throw e, w') => (Throw e, w')
  end.

Definition throw {A} (e : JsError) : Js A := fun w => (Throw e, w).

Definition get {A} (f : World -> A) : Js A := fun w => (Normal (f w), w).

Definition modify (f : World -> World) : Js unit := fun w => (Normal tt, f w).

(** [try { m } catch (e) { h e }] *)
Definition try_catch {A} (m : Js A) (h : JsError -> Js A) : Js A := fun w =>
  match m w with
  | (Normal a, w') => (Normal a, w')
  | (Throw e, w') => h e w'
  end.

(** [try { m } finally { f }]: [f] runs either way; the completion of [m]
    stands unless [f] throws. *)
Definition try_finally {A} (m : Js A) (f : Js unit) : Js A := fun w =>
  let '(r, w') := m w in
  match f w' with
  | (Normal _, w'') => (r, w'')
  | (Throw e, w'') => (Throw e, w'')
  end.

(** [if (c) m] *)
Definition when (c : bool) (m : Js unit) : Js unit :=
  if c then m else mret tt.

(** [for (const x of l) { await f x }] *)
Fixpoint for_of {A} (l : list A) (f : A -> Js unit) : Js unit :=
  match l with
  | [] => mret tt
  | x :: l' => f x ;; for_of l' f
  end.

(** ** Browser operations *)

(** [Date.now()]; [new Date()] looks at the same clock. *)
Definition Date_now : Js Z := fun w =>
  (Normal (clock w (clock_reads w)), with_clock_reads (S (clock_reads w)) w).

(** [localStorage.getItem(key)] *)
Definition localStorage_getItem (key : string) : Js (option string) :=
  get (fun w => localStorage w !! key).

(** [toast.error(msg)] *)
Definition toast_error (msg : string) : Js unit :=
  modify (fun w => with_toasts (toasts w ++ [msg]) w).

(** [fetch(url, init)]: the request goes out, and the promise resolves with
    the response or rejects with a [TypeError]. *)
Definition fetch (req : Request) : Js Response := fun w =>
  let w' := with_requests (requests w ++ [req]) w in
  match server w (requests w) req with
  | Resolved r => (Normal r, w')
  | Rejected => (Throw (TypeError "Failed to fetch"), w')
  end.

(** [res.text()] *)
Definition Response_text (r : Response) : Js string := mret (body_text r).

(** [res.json()] *)
Definition Response_json (r : Response) : Js AIResponse.t :=
  match body_json r with
  | Some a => mret a
  | None => throw (SyntaxError "Unexpected token in JSON")
  end.

(** Runs [k] on a [string | null] that is truthy, and does nothing on one
    that is not: [if (s) k(s)]. *)
Definition if_truthy (o : option string) (k : string -> Js unit) : Js unit :=
  match o with
  | Some s => if Builtin.truthy s then k s else mret tt
  | None => mret tt
  end.

(** ** [src/context/ChatContext.tsx]: the session store *)

Definition createNewChat : Js string :=
  now ← Date_now;
  let newChat := Chat.mk (Builtin.toString now) [] in
  modify (fun w => with_chats (chats w ++ [newChat]) w) ;;
  modify (with_currentChatId (Some (Chat.id newChat))) ;;
  mret (Chat.id newChat).

Definition setCurrentChatId (id : option string) : Js unit :=
  modify (with_currentChatId id).

(** The updater given to [setChats] by [addMessageToChat]. *)
Definition append_to (chatId : string) (message : ChatMessage.t)
    (prev : list Chat.t) : list Chat.t :=
  (fun chat =>
     if String.eqb (Chat.id chat) chatId
     then Chat.mk (Chat.id chat) (Chat.messages chat ++ [message])
     else chat) <$> prev.

Definition addMessageToChat (chatId : string) (message : ChatMessage.t)
    : Js unit :=
  modify (fun w => with_chats (append_to chatId message (chats w)) w).

(** ** [src/api/chat.ts] *)

Record FetchChatResponseInput := { user_input : string }.

(** The request [fetchChatResponse] makes for [input] with the token [tok]. *)
Definition chat_request (base tok : string) (input : FetchChatResponseInput)
    : Request :=
  {| url := base +:+ "/auth/chat/respond";
     method := "POST";
     headers := [("Content-Type", "application/json");
                 ("Authorization", "Bearer " +:+ tok)];
     body := ChatInput (user_input input) |}.

Definition fetchChatResponse (input : FetchChatResponseInput)
    : Js AIResponse.t :=
  token ← localStorage_getItem "access_token";
  if negb (Builtin.truthy_opt token)
  then throw (Error "No access token found")
  else
    API_BASE_URL ← get VITE_API_URL;
    res ← fetch (chat_request API_BASE_URL (default "" token) input);
    if negb (ok res)
    then
      text ← Response_text res;
      throw (Error ("AI error: " +:+ pretty (status res) +:+ " " +:+ text))
    else Response_json res.

(** ** [src/hooks/useChatMessages.ts]

    The two functions close over the [currentChatId] of the render that
    made them; it is their first argument here. *)

Definition addUserMessage (cur : option string) (msg : ChatMessage.t)
    : Js unit :=
  if_truthy cur (fun cid =>
    addMessageToChat cid msg ;;
    modify (fun w => with_messages (messages w ++ [msg]) w)).

(** The message [addAIMessage] builds from a response, with the clock
    readings [now] (for the id) and [ts] (for the timestamp). *)
Definition ai_message (now ts : Z) (res : AIResponse.t) : ChatMessage.t :=
  {| ChatMessage.id := Builtin.toString now +:+ "_ai";
     ChatMessage.text := AIResponse.response res;
     ChatMessage.fromChild := false;
     ChatMessage.timestamp := Builtin.toISOString ts;
     ChatMessage.sentiment := Some (AIResponse.sentiment res);
     ChatMessage.sentiment_score := Some (AIResponse.sentiment_score res);
     ChatMessage.suggestions := Some (AIResponse.suggested_actions res) |}.

Definition addAIMessage (cur : option string) (input : string) : Js unit :=
  modify (with_isLoading true) ;;
  try_finally
    (try_catch
       (res ← fetchChatResponse {| user_input := input |};
        now ← Date_now;
        ts ← Date_now;
        let aiMsg := ai_message now ts res in
        if_truthy cur (fun cid => addMessageToChat cid aiMsg) ;;
        modify (fun w => with_messages (messages w ++ [aiMsg]) w))
       (fun error => toast_error "AI response failed."))
    (modify (with_isLoading false)).

(** ** [src/pages/Chat.tsx] *)

(** The message [sendMessage] builds from the trimmed input. *)
Definition user_message (now ts : Z) (text : string) : ChatMessage.t :=
  {| ChatMessage.id := Builtin.toString now;
     ChatMessage.text := text;
     ChatMessage.fromChild := true;
     ChatMessage.timestamp := Builtin.toISOString ts;
     ChatMessage.sentiment := None;
     ChatMessage.sentiment_score := None;
     ChatMessage.suggestions := None |}.

(** [sendMessage] closes over the [input] and, through the hook, the
    [currentChatId] of the render it belongs to. *)
Definition sendMessage : Js unit := fun w =>
  let cur := currentChatId w in
  let text := Builtin.trim (input w) in
  (if negb (Builtin.truthy text) then mret tt
   else
     now ← Date_now;
     ts ← Date_now;
     let userMsg := user_message now ts text in
     addUserMessage cur userMsg ;;
     modify (with_input "") ;;
     modify (with_isTyping true) ;;
     try_finally
       (try_catch (addAIMessage cur text)
                  (fun _ => toast_error "AI response failed."))
       (modify (with_isTyping false))) w.

(** ** [src/utils/outboxStore.ts]: the outbox *)

(** Puts a record at its place in key order; [None] when the key is taken. *)
Fixpoint insert_record (k : IDBKey) (v : string) (l : list (IDBKey * string))
    : option (list (IDBKey * string)) :=
  match l with
  | [] => Some [(k, v)]
  | (k', v') :: l' =>
      match key_compare k k' with
      | Lt => Some ((k, v) :: l)
      | Eq => None
      | Gt => cons (k', v') <$> insert_record k v l'
      end
  end.

(** The largest number a key generator hands out. *)
Definition generator_max : Z := 2 ^ 53.

(** After a record came with its own key: a number at or above the current
    number moves the generator past it. *)
Definition update_generator (k : IDBKey) (g : Z) : Z :=
  match k with
  | NumKey n => let v := Z.min n generator_max in if g <=? v then v + 1 else g
  | StrKey _ => g
  end.

(** [IDBObjectStore.add(msg)] on a store with in-line keys and a key
    generator: the key is the message's [id] when it has one, the next
    number of the generator otherwise.  A failed [add] changes nothing. *)
Definition store_add (msg : OutboxMsg) (s : ObjectStore)
    : option ObjectStore :=
  match msg_id msg with
  | Some k =>
      recs ← insert_record k (msg_text msg) (records s);
      Some {| records := recs; generator := update_generator k (generator s) |}
  | None =>
      if generator_max <? generator s then None
      else
        recs ← insert_record (NumKey (generator s)) (msg_text msg) (records s);
        Some {| records := recs; generator := generator s + 1 |}
  end.

(** [IDBObjectStore.getAll()]: the stored values in ascending key order. *)
Definition store_getAll (s : ObjectStore) : list OutboxMsg :=
  (fun '(k, t) => {| msg_id := Some k; msg_text := t |}) <$> records s.

(** [IDBObjectStore.clear()]: the records go, the generator stays. *)
Definition store_clear (s : ObjectStore) : ObjectStore :=
  {| records := []; generator := generator s |}.

Definition saveMessageToOutbox (msg : OutboxMsg) : Js unit := fun w =>
  match store_add msg (outbox w) with
  | Some s => (Normal tt, with_outbox s w)
  | None => (Throw ConstraintError, w)
  end.

Definition getOutboxMessages : Js (list OutboxMsg) :=
  get (fun w => store_getAll (outbox w)).

Definition clearOutbox : Js unit :=
  modify (fun w => with_outbox (store_clear (outbox w)) w).

(** ** [public/service-worker.js]: the handler of the "online" event

    The world has the database "chatApp" with its store, as [getDB] sets it
    up; opening that database changes nothing. *)

(** An [IDBTransaction], by its store and its mode. *)
Record IDBTransaction := {
  tx_store : string;
  tx_mode : string
}.

(** What [indexedDB.open] returns: an [IDBOpenDBRequest], which is neither a
    promise nor a database.  What it has under the name [transaction] is an
    attribute, [null] on a request that runs no upgrade, and no method:
    there is nothing to call. *)
Record IDBOpenDBRequest := {
  request_database : string;
  transaction : option (string -> string -> Js IDBTransaction)
}.

(** [indexedDB.open(name)] *)
Definition indexedDB_open (name : string) : Js IDBOpenDBRequest :=
  mret {| request_database := name; transaction := None |}.

(** [await v] for a [v] that is no promise: [v] itself. *)
Definition await_value {A} (v : A) : Js A := mret v.

(** A call [f(...)]: what is no function cannot be called. *)
Definition call {A} (what : string) (f : option (Js A)) : Js A :=
  match f with
  | Some m => m
  | None => throw (TypeError (what +:+ " is not a function"))
  end.

(** [tx.objectStore("outbox").getAll()] and [.clear()] *)
Definition objectStore_getAll (tx : IDBTransaction) : Js (list OutboxMsg) :=
  get (fun w => store_getAll (outbox w)).

Definition objectStore_clear (tx : IDBTransaction) : Js unit :=
  modify (fun w => with_outbox (store_clear (outbox w)) w).

(** The request the handler makes for a queued message. *)
Definition outbox_request (msg : OutboxMsg) : Request :=
  {| url := "/api/chat";
     method := "POST";
     headers := [("Content-Type", "application/json")];
     body := Queued msg |}.

(** The body of the loop: [await fetch("/api/chat", ...)]. *)
Definition post (msg : OutboxMsg) : Js unit :=
  fetch (outbox_request msg) ;; mret tt.

(** The handler: [db] is the request that [indexedDB.open] returned, and the
    handler calls [db.transaction] on it. *)
Definition online_handler : Js unit :=
  db ← indexedDB_open "chatApp" ≫= await_value;
  tx ← call "db.transaction"
         ((fun f => f "outbox" "readonly") <$> transaction db);
  msgs ← objectStore_getAll tx;
  for_of msgs post ;;
  clearTx ← call "db.transaction"
              ((fun f => f "outbox" "readwrite") <$> transaction db);
  objectStore_clear clearTx.

(** ** Notions the statements use *)

(** [fetch] failed: the promise rejected, or it resolved with a status
    outside 200..299. *)
Definition failed (fr : FetchResult) : bool :=
  match fr with
  | Resolved r => negb (ok r)
  | Rejected => true
  end.

(** The endpoint of [w] answers every request, whatever came before, with a
    2xx response whose body parses and carries the response text [R]. *)
Definition responds_with (w : World) (R : string) : Prop :=
  forall h req, exists r a,
    server w h req = Resolved r /\ ok r = true /\
    body_json r = Some a /\ AIResponse.response a = R.

(** The endpoint of [w] fails every request. *)
Definition fails_every_post (w : World) : Prop :=
  forall h req, failed (server w h req) = true.

(** One [sendMessage] on the input [X] has put two messages at the end of
    every session named by [currentChatId]: the user's with text [X], then
    the AI's with text [R]. *)
Definition two_messages_appended (w : World) (X R : string) : Prop :=
  forall cid i chat,
    currentChatId w = Some cid -> chats w !! i = Some chat ->
    Chat.id chat = cid ->
    exists userMsg aiMsg,
      chats (sendMessage w).2 !! i
      = Some (Chat.mk cid (Chat.messages chat ++ [userMsg; aiMsg])) /\
      ChatMessage.text userMsg = X /\
      ChatMessage.fromChild userMsg = true /\
      ChatMessage.text aiMsg = R /\
      ChatMessage.fromChild aiMsg = false.

(** The outbox of [w] holds nothing once the "online" handler has run. *)
Definition outbox_empty_after_flush (w : World) : Prop :=
  records (outbox (online_handler w).2) = [].

(** The "online" handler has made one request for every queued message, in
    the order [getAll] gave them. *)
Definition flush_posts_every_entry (w : World) : Prop :=
  requests (online_handler w).2
  = requests w ++ (outbox_request <$> store_getAll (outbox w)).

(** A message without an [id] of its own. *)
Definition plain (t : string) : OutboxMsg := {| msg_id := None; msg_text := t |}.

(** Every key of [l] is a number below [g]. *)
Definition below (g : Z) (l : list (IDBKey * string)) : Prop :=
  Forall (fun kv => key_compare kv.1 (NumKey g) = Lt) l.

(** The records of the messages [texts], keyed from [g] on. *)
Definition keyed_from (g : Z) (texts : list string) : list (IDBKey * string) :=
  imap (fun i t => (NumKey (g + Z.of_nat i), t)) texts.

(** The order of records: the order of their keys. *)
Definition key_lt (a b : IDBKey * string) : Prop := key_compare a.1 b.1 = Lt.

(** ** Worlds to run the functions in *)

(** An endpoint that answers every request with an echo of its text, in the
    shape of the answers of the mock in [src/__mocks__/server.ts]. *)
Definition echo_server (h : list Request) (req : Request) : FetchResult :=
  let user_input :=
    match body req with ChatInput s => s | Queued m => msg_text m end in
  Resolved {| status := 200;
              body_text := "";
              body_json := Some (AIResponse.mk ("AI echo: " +:+ user_input)
                                   "neutral" (1 # 2)
                                   ["Keep the conversation going"]) |}.

(** An endpoint that answers everything with the response text [R]. *)
Definition answering_server (R : string) (h : list Request) (req : Request)
    : FetchResult :=
  Resolved {| status := 200;
              body_text := "";
              body_json := Some (AIResponse.mk R "neutral" (1 # 2) []) |}.

(** An endpoint that answers 500 to everything. *)
Definition failing_server (h : list Request) (req : Request) : FetchResult :=
  Resolved {| status := 500; body_text := "fail"; body_json := None |}.

(** An endpoint that cannot be reached. *)
Definition unreachable_server (h : list Request) (req : Request)
    : FetchResult := Rejected.

(** A signed-in page with one session, the active one, and "Hello AI"
    typed in. *)
Definition hello_world : World :=
  {| VITE_API_URL := "/api";
     clock := fun n => 1700000000000 + Z.of_nat n;
     clock_reads := 0;
     localStorage := {[ "access_token" := "token" ]};
     server := echo_server;
     requests := [];
     toasts := [];
     outbox := empty_store;
     chats := [Chat.mk "1" []];
     currentChatId := Some "1";
     messages := [];
     isLoading := false;
     input := "Hello AI";
     isTyping := false |}.

Definition with_localStorage (m : gmap string string) (w : World) : World :=
  {| VITE_API_URL := VITE_API_URL w; clock := clock w;
     clock_reads := clock_reads w;
     localStorage := m; server := server w;
     requests := requests w; toasts := toasts w; outbox := outbox w;
     chats := chats w; currentChatId := currentChatId w;
     messages := messages w; isLoading := isLoading w;
     input := input w; isTyping := isTyping w |}.

Definition with_server (f : list Request -> Request -> FetchResult)
    (w : World) : World :=
  {| VITE_API_URL := VITE_API_URL w; clock := clock w;
     clock_reads := clock_reads w;
     localStorage := localStorage w; server := f;
     requests := requests w; toasts := toasts w; outbox := outbox w;
     chats := chats w; currentChatId := currentChatId w;
     messages := messages w; isLoading := isLoading w;
     input := input w; isTyping := isTyping w |}.

Definition with_clock (f : nat -> Z) (w : World) : World :=
  {| VITE_API_URL := VITE_API_URL w; clock := f;
     clock_reads := clock_reads w;
     localStorage := localStorage w; server := server w;
     requests := requests w; toasts := toasts w; outbox := outbox w;
     chats := chats w; currentChatId := currentChatId w;
     messages := messages w; isLoading := isLoading w;
     input := input w; isTyping := isTyping w |}.

(** The same page signed out, in front of an endpoint that would answer. *)
Definition signed_out_world : World :=
  with_server (answering_server "AI echo: Hello AI")
    (with_localStorage ∅ hello_world).

(** The same page with a clock that stands still. *)
Definition frozen_world : World := with_clock (fun _ => 1700000000000) hello_world.

(** The same page whose endpoint answers 500. *)
Definition failing_world : World := with_server failing_server hello_world.

(** The same page with only blanks typed in. *)
Definition blank_world : World := with_input "   " hello_world.

(** The world after two messages went to the outbox. *)
Definition queued_two (srv : list Request -> Request -> FetchResult) : World :=
  (for_of [plain "first"; plain "second"] saveMessageToOutbox
     (with_server srv hello_world)).2.

(** ** [src/lib/utils.ts]: [cn] *)

(** [Array.prototype.join] on strings. *)
Fixpoint join (sep : string) (l : list string) : string :=
  match l with
  | [] => ""
  | x :: l' =>
      match l' with
      | [] => x
      | _ :: _ => x +:+ sep +:+ join sep l'
      end
  end.

(** [cn(...classes)].  A class is a string, or one of [false], [null] and
    [undefined], which are all [None] here; [filter(Boolean)] keeps the
    strings that are not empty. *)
Definition cn (classes : list (option string)) : string :=
  join " " (default "" <$> filter (fun c => Builtin.truthy_opt c) classes).

(** ** [src/utils/theme.ts] *)

Inductive Theme :=
| dark
| light.

(** The string a theme is in the source. *)
Definition theme_name (t : Theme) : string :=
  match t with dark => "dark" | light => "light" end.

(** [localStorage.setItem(key, value)] *)
Definition localStorage_setItem (key value : string) : Js unit :=
  modify (fun w => with_localStorage (<[key := value]> (localStorage w)) w).

(** [getInitialTheme()]; [prefers_dark] is what
    [window.matchMedia("(prefers-color-scheme: dark)").matches] says. *)
Definition getInitialTheme (prefers_dark : bool) : Js Theme :=
  saved ← localStorage_getItem "theme";
  let system := if prefers_dark then dark else light in
  match saved with
  | Some s =>
      if String.eqb s "dark" then mret dark
      else if String.eqb s "light" then mret light
      else mret system
  | None => mret system
  end.

(** [DOMTokenList.toggle(token, force)] on the tokens of a class list, an
    ordered set. *)
Definition classList_toggle (token : string) (force : bool)
    (classList : list string) : list string :=
  if bool_decide (token ∈ classList)
  then if force then classList else filter (fun c => c <> token) classList
  else if force then classList ++ [token] else classList.

(** [applyTheme(theme)]; the class list of [document.documentElement] goes
    in and comes out. *)
Definition applyTheme (theme : Theme) (classList : list string)
    : Js (list string) :=
  let classList' :=
    classList_toggle "dark" (String.eqb (theme_name theme) "dark") classList in
  localStorage_setItem "theme" (theme_name theme) ;;
  mret classList'.

(** ** [src/api/axiosInstance.ts]: the request interceptor *)

(** What the interceptor looks at in a request configuration: the URL and
    the headers, by name (names that differ in case only are one header,
    and one key here). *)
Record AxiosConfig := {
  config_url : option string;
  config_headers : gmap string string
}.

(** [String.prototype.includes] *)
Fixpoint includes (s r : string) : bool :=
  String.prefix r s ||
  match s with
  | EmptyString => false
  | String _ s' => includes s' r
  end.

Definition publicRoutes : list string :=
  ["/auth/register"; "/auth/login"; "/auth/verify-email"].

(** The function given to [apiClient.interceptors.request.use]. *)
Definition attach_token (config : AxiosConfig) : Js AxiosConfig :=
  let isPublic :=
    existsb (fun route =>
               match config_url config with
               | Some u => includes u route
               | None => false
               end) publicRoutes in
  if negb isPublic
  then
    token ← localStorage_getItem "access_token";
    if Builtin.truthy_opt token
    then mret {| config_url := config_url config;
                 config_headers :=
                   <["Authorization" := "Bearer " +:+ default "" token]>
                     (config_headers config) |}
    else mret config
  else mret config.

(** ** [src/components/layout/Sidebar.tsx] and the effect of [Chat.tsx] *)

(** [handleNewChat], by the state it commits.  ([onClose], which closes the
    sidebar, acts on state of the parent that the world does not have; the
    call is left out.) *)
Definition handleNewChat : Js unit :=
  newId ← createNewChat;
  setCurrentChatId (Some newId).

(** The effect of [Chat.tsx] that makes sure a session exists; [cur] is the
    [currentChatId] of the render the effect belongs to.  (Focusing the
    input field is left out.) *)
Definition ensure_chat (cur : option string) : Js unit :=
  if negb (Builtin.truthy_opt cur) then createNewChat ;; mret tt else mret tt.

(** ** More notions the statements use *)

(** Some session of [w] has the id [cid]. *)
Definition has_session (w : World) (cid : string) : Prop :=
  exists i chat, chats w !! i = Some chat /\ Chat.id chat = cid.

(** A store as the outbox can be: records in ascending key order, and every
    number among the keys below the generator unless the generator is
    spent. *)
Definition store_ok (s : ObjectStore) : Prop :=
  Sorted key_lt (records s) /\
  (forall n v, (NumKey n, v) ∈ records s ->
               n < generator s \/ generator_max < generator s).

(** The world after [saveMessageToOutbox] was called on each message in
    turn, each call accepted or refused. *)
Definition after_saves (msgs : list OutboxMsg) (w : World) : World :=
  foldl (fun w msg => (saveMessageToOutbox msg w).2) w msgs.

(** The sessions after the user's message went to the active one. *)
Definition with_user (cur : option string) (userMsg : ChatMessage.t)
    (l : list Chat.t) : list Chat.t :=
  if Builtin.truthy_opt cur then append_to (default "" cur) userMsg l else l.

(** The classes [cn] keeps. *)
Definition kept (classes : list (option string)) : list string :=
  default "" <$> filter (fun c => Builtin.truthy_opt c) classes.

(** * Properties *)

(** ** Built-ins on sample values *)

Example trim_spaces : Builtin.trim "  Hello AI  " = "Hello AI".
Proof. reflexivity. Qed.

Example trim_blank : Builtin.trim (String "009" (String "010" " ")) = "".
Proof. reflexivity. Qed.

Example toString_now : Builtin.toString 1700000000000 = "1700000000000".
Proof. vm_compute. reflexivity. Qed.

Example toISOString_epoch : Builtin.toISOString 0 = "1970-01-01T00:00:00.000Z".
Proof. vm_compute. reflexivity. Qed.

Example toISOString_2023 :
  Builtin.toISOString 1700000000123 = "2023-11-14T22:13:20.123Z".
Proof. vm_compute. reflexivity. Qed.

Example toISOString_leap :
  Builtin.toISOString 1709251199000 = "2024-02-29T23:59:59.000Z".
Proof. vm_compute. reflexivity. Qed.


(** Unfolds the monad down to functions on worlds. *)
Ltac js_unfold :=
  unfold mbind, Js_bind, mret, Js_ret, modify, get, throw, try_catch,
    try_finally, when in *.

Lemma world_eta (w : World) :
  {| VITE_API_URL := VITE_API_URL w; clock := clock w;
     clock_reads := clock_reads w; localStorage := localStorage w;
     server := server w; requests := requests w; toasts := toasts w;
     outbox := outbox w; chats := chats w; currentChatId := currentChatId w;
     messages := messages w; isLoading := isLoading w;
     input := input w; isTyping := isTyping w |} = w.
Proof. by destruct w. Qed.

(** ** The session store *)

Section append_to.
Variables (chatId : string) (message : ChatMessage.t).

Lemma append_to_length prev :
  length (append_to chatId message prev) = length prev.
Proof. apply length_fmap. Qed.

Lemma append_to_ids prev :
  Chat.id <$> append_to chatId message prev = Chat.id <$> prev.
Proof.
  unfold append_to. rewrite <- list_fmap_compose.
  apply list_fmap_ext; intros i chat _; simpl.
  by destruct (String.eqb _ _).
Qed.

Lemma append_to_hit prev i chat :
  prev !! i = Some chat -> Chat.id chat = chatId ->
  append_to chatId message prev !! i
  = Some (Chat.mk chatId (Chat.messages chat ++ [message])).
Proof.
  intros Hi Hid. unfold append_to. rewrite list_lookup_fmap, Hi; simpl.
  by rewrite Hid, String.eqb_refl.
Qed.

Lemma append_to_miss prev i chat :
  prev !! i = Some chat -> Chat.id chat <> chatId ->
  append_to chatId message prev !! i = Some chat.
Proof.
  intros Hi Hid. unfold append_to. rewrite list_lookup_fmap, Hi; simpl.
  by apply String.eqb_neq in Hid as ->.
Qed.

Lemma append_to_unknown prev :
  (forall chat, chat ∈ prev -> Chat.id chat <> chatId) ->
  append_to chatId message prev = prev.
Proof.
  intros Hno. unfold append_to. rewrite <- (list_fmap_id prev) at 2.
  apply list_fmap_ext; intros i chat Hi; simpl.
  assert (Chat.id chat <> chatId) as Hne
    by (apply Hno, list_elem_of_lookup; eauto).
  by apply String.eqb_neq in Hne as ->.
Qed.
End append_to.

(** C5.  [addMessageToChat chatId message] never throws; every session whose
    id is [chatId] has [message] appended at the end of its message list,
    and when no session has that id the store, and the whole world with it,
    is as it was. *)
Theorem addMessageToChat_appends_or_drops
    (w : World) (chatId : string) (message : ChatMessage.t) :
  exists w',
    addMessageToChat chatId message w = (Normal tt, w') /\
    (forall i chat,
        chats w !! i = Some chat -> Chat.id chat = chatId ->
        chats w' !! i
        = Some (Chat.mk chatId (Chat.messages chat ++ [message]))) /\
    ((forall chat, chat ∈ chats w -> Chat.id chat <> chatId) -> w' = w).
Proof.
  eexists; split; [reflexivity|]; split; simpl.
  - intros i chat. apply append_to_hit.
  - intros Hno. unfold with_chats. rewrite append_to_unknown by done.
    apply world_eta.
Qed.

(** C9.  [addMessageToChat chatId message] keeps the length of the session
    collection and the order of its ids, leaves every session with another
    id as it was, and leaves [currentChatId] alone. *)
Theorem addMessageToChat_frame
    (w : World) (chatId : string) (message : ChatMessage.t) :
  let w' := (addMessageToChat chatId message w).2 in
  length (chats w') = length (chats w) /\
  Chat.id <$> chats w' = Chat.id <$> chats w /\
  (forall i chat,
      chats w !! i = Some chat -> Chat.id chat <> chatId ->
      chats w' !! i = Some chat) /\
  currentChatId w' = currentChatId w.
Proof.
  simpl. split; [apply append_to_length|].
  split; [apply append_to_ids|].
  split; [|reflexivity].
  intros i chat. apply append_to_miss.
Qed.

(** C6.  [createNewChat] returns; the id it returns is the decimal form of
    the clock reading, a session with that id and no messages is last in
    the collection, after the sessions there were, and [currentChatId] is
    that id. *)
Theorem createNewChat_post (w : World) :
  exists id w',
    createNewChat w = (Normal id, w') /\
    id = Builtin.toString (clock w (clock_reads w)) /\
    chats w' = chats w ++ [Chat.mk id []] /\
    currentChatId w' = Some id.
Proof.
  unfold createNewChat, Date_now. js_unfold. simpl.
  do 2 eexists. split; [reflexivity|]. done.
Qed.

(** Two looks at the clock with different readings give sessions with
    different ids: the decimal form of a number determines it. *)
Lemma createNewChat_distinct_readings (w w1 w2 : World) (id1 id2 : string) :
  clock w (S (clock_reads w)) <> clock w (clock_reads w) ->
  createNewChat w = (Normal id1, w1) ->
  createNewChat w1 = (Normal id2, w2) ->
  id1 <> id2.
Proof.
  unfold createNewChat, Date_now. js_unfold. simpl.
  intros Hne [= <- <-] [= <-]. simpl.
  unfold Builtin.toString. intros Heq. by apply (inj pretty) in Heq.
Qed.

(** C4.  The id of a new session is the clock reading and nothing else: two
    calls of [createNewChat] that read the same millisecond return the same
    id, and the collection then holds two sessions with that id. *)
Theorem createNewChat_same_reading (w : World) :
  clock w (S (clock_reads w)) = clock w (clock_reads w) ->
  exists id w1 w2,
    createNewChat w = (Normal id, w1) /\
    createNewChat w1 = (Normal id, w2) /\
    chats w2 = chats w ++ [Chat.mk id []; Chat.mk id []].
Proof.
  intros Hsame. unfold createNewChat, Date_now. js_unfold. simpl.
  do 3 eexists. split; [reflexivity|]. simpl. rewrite Hsame.
  split; [reflexivity|]. simpl. by rewrite <- app_assoc.
Qed.

Lemma createNewChat_same_reading_witness :
  exists id w1 w2,
    createNewChat frozen_world = (Normal id, w1) /\
    createNewChat w1 = (Normal id, w2) /\
    chats w2 = chats frozen_world ++ [Chat.mk id []; Chat.mk id []].
Proof. apply (createNewChat_same_reading frozen_world). reflexivity. Defined.

(** ** The message pipeline *)

Arguments Builtin.toString : simpl never.
Arguments Builtin.toISOString : simpl never.
Arguments Builtin.trim : simpl never.
Arguments append_to : simpl never.
Arguments String.append : simpl never.

(** C7.  Without an access token in local storage [fetchChatResponse] throws
    [Error "No access token found"] and the world is as it was: no request
    has been added to those made. *)
Theorem fetchChatResponse_no_token (w : World) (input : FetchChatResponseInput) :
  localStorage w !! "access_token" = None ->
  fetchChatResponse input w = (Throw (Error "No access token found"), w) /\
  requests (fetchChatResponse input w).2 = requests w.
Proof.
  intros Hnone. unfold fetchChatResponse, localStorage_getItem. js_unfold.
  rewrite Hnone. by simpl.
Qed.

(** An empty token is no token either. *)
Lemma fetchChatResponse_empty_token (w : World) (input : FetchChatResponseInput) :
  localStorage w !! "access_token" = Some "" ->
  fetchChatResponse input w = (Throw (Error "No access token found"), w).
Proof.
  intros Hnone. unfold fetchChatResponse, localStorage_getItem. js_unfold.
  rewrite Hnone. by simpl.
Qed.

(** C10.  On an input that trims to the empty string [sendMessage] returns
    at once: no session, no hook or page state, no request and no toast
    changes, the world is as it was. *)
Theorem sendMessage_blank (w : World) :
  Builtin.trim (input w) = "" ->
  sendMessage w = (Normal tt, w).
Proof. intros Hblank. unfold sendMessage. by rewrite Hblank. Qed.

Lemma fetchChatResponse_no_token_witness :
  fetchChatResponse {| user_input := "Hello AI" |} signed_out_world
  = (Throw (Error "No access token found"), signed_out_world) /\
  requests (fetchChatResponse {| user_input := "Hello AI" |}
              signed_out_world).2 = [].
Proof.
  apply (fetchChatResponse_no_token signed_out_world). reflexivity.
Defined.

Lemma sendMessage_blank_witness :
  sendMessage blank_world = (Normal tt, blank_world).
Proof. apply (sendMessage_blank blank_world). reflexivity. Defined.

Lemma truthy_nonempty (s : string) : s <> "" -> Builtin.truthy s = true.
Proof. by destruct s. Qed.

Lemma fetchChatResponse_ok (w : World) (input : FetchChatResponseInput)
    (tok : string) (r : Response) (a : AIResponse.t) :
  localStorage w !! "access_token" = Some tok ->
  tok <> "" ->
  server w (requests w) (chat_request (VITE_API_URL w) tok input) = Resolved r ->
  ok r = true ->
  body_json r = Some a ->
  fetchChatResponse input w
  = (Normal a,
     with_requests (requests w ++ [chat_request (VITE_API_URL w) tok input]) w).
Proof.
  intros Htok Hne Hsrv Hok Hjson.
  unfold fetchChatResponse, localStorage_getItem, fetch, Response_json.
  js_unfold. rewrite Htok. simpl. rewrite (truthy_nonempty _ Hne). simpl.
  rewrite Hsrv, Hok. simpl. by rewrite Hjson.
Qed.

Lemma fetchChatResponse_failed (w : World) (input : FetchChatResponseInput) :
  failed (server w (requests w)
            (chat_request (VITE_API_URL w)
               (default "" (localStorage w !! "access_token")) input)) = true ->
  exists e l, fetchChatResponse input w = (Throw e, with_requests l w).
Proof.
  intros Hfail.
  unfold fetchChatResponse, localStorage_getItem, fetch, Response_text.
  js_unfold.
  destruct (Builtin.truthy_opt (localStorage w !! "access_token")); simpl.
  - destruct (server w _ _) as [r|]; simpl in *.
    + rewrite Hfail. simpl. by do 2 eexists. 
    + by do 2 eexists.
  - exists (Error "No access token found"), (requests w).
    unfold with_requests. by rewrite world_eta.
Qed.

(** C2 (amended).  With an input that does not trim to the empty string, a
    non-empty [currentChatId], a non-empty access token in local storage and
    an endpoint that answers the request with a 2xx response whose body
    parses, one [sendMessage] returns and every session with the id
    [currentChatId] has exactly two more messages at its end: the user's,
    whose text is the trimmed input and whose [fromChild] is true, then the
    AI's, whose text is the response text and whose [fromChild] is false.
    The other sessions are as they were, and one request went out. *)
Theorem sendMessage_success (w : World) (cid tok : string) (r : Response)
    (a : AIResponse.t) :
  let text := Builtin.trim (input w) in
  let n := clock_reads w in
  let userMsg := user_message (clock w n) (clock w (S n)) text in
  let aiMsg := ai_message (clock w (S (S n))) (clock w (S (S (S n)))) a in
  text <> "" ->
  currentChatId w = Some cid -> cid <> "" ->
  localStorage w !! "access_token" = Some tok -> tok <> "" ->
  server w (requests w)
    (chat_request (VITE_API_URL w) tok {| user_input := text |}) = Resolved r ->
  ok r = true ->
  body_json r = Some a ->
  exists w',
    sendMessage w = (Normal tt, w') /\
    ChatMessage.text userMsg = text /\
    ChatMessage.fromChild userMsg = true /\
    ChatMessage.text aiMsg = AIResponse.response a /\
    ChatMessage.fromChild aiMsg = false /\
    (forall i chat,
        chats w !! i = Some chat -> Chat.id chat = cid ->
        chats w' !! i
        = Some (Chat.mk cid (Chat.messages chat ++ [userMsg; aiMsg]))) /\
    (forall i chat,
        chats w !! i = Some chat -> Chat.id chat <> cid ->
        chats w' !! i = Some chat) /\
    length (chats w') = length (chats w) /\
    requests w'
    = requests w ++ [chat_request (VITE_API_URL w) tok {| user_input := text |}].
Proof.
  intros text n userMsg aiMsg Htext Hcur Hcid Htok Hne Hsrv Hok Hjson.
  unfold sendMessage. fold text. rewrite (truthy_nonempty _ Htext). 
  rewrite Hcur. unfold addUserMessage, addAIMessage, if_truthy, addMessageToChat, Date_now.
  rewrite (truthy_nonempty _ Hcid).
  js_unfold. simpl.
  erewrite fetchChatResponse_ok; simpl; eauto.
  eexists. split; [reflexivity|]. simpl.
  do 4 (split; [reflexivity|]).
  fold n userMsg aiMsg.
  split; [|split; [|split; [|reflexivity]]].
  - intros i chat Hi Hid.
    rewrite (append_to_hit _ _ _ _ (Chat.mk cid (Chat.messages chat ++ [userMsg]))); simpl.
    + by rewrite <- app_assoc.
    + by apply append_to_hit.
    + done.
  - intros i chat Hi Hid. apply append_to_miss; [|done]. by apply append_to_miss.
  - by rewrite !append_to_length.
Qed.

Lemma sendMessage_success_witness :
  exists w',
    sendMessage hello_world = (Normal tt, w') /\
    chats w' !! 0%nat
    = Some (Chat.mk "1"
              [user_message 1700000000000 1700000000001 "Hello AI";
               ai_message 1700000000002 1700000000003
                 (AIResponse.mk "AI echo: Hello AI" "neutral" (1 # 2)
                    ["Keep the conversation going"])]).
Proof.
  destruct (sendMessage_success hello_world "1" "token"
              {| status := 200; body_text := "";
                 body_json := Some (AIResponse.mk "AI echo: Hello AI" "neutral"
                                      (1 # 2) ["Keep the conversation going"]) |}
              (AIResponse.mk "AI echo: Hello AI" "neutral" (1 # 2)
                 ["Keep the conversation going"]))
    as (w' & Hrun & _ & _ & _ & _ & Hhit & _); try done.
  exists w'. split; [exact Hrun|].
  apply (Hhit 0%nat (Chat.mk "1" [])); reflexivity.
Defined.

(** C2 as stated fails on a page that is signed out: the endpoint would
    answer every request with the response text, the input is not blank and
    a session is active, yet the active session does not get two messages. *)
Lemma sendMessage_signed_out :
  Builtin.trim (input signed_out_world) <> "" /\
  responds_with signed_out_world "AI echo: Hello AI" /\
  ~ two_messages_appended signed_out_world (input signed_out_world)
      "AI echo: Hello AI".
Proof.
  split; [done|]. split.
  - intros h req. do 2 eexists. by split; [reflexivity|].
  - intros Hclaim.
    destruct (Hclaim "1" 0%nat (Chat.mk "1" []) eq_refl eq_refl eq_refl)
      as (userMsg & aiMsg & Hlook & _).
    vm_compute in Hlook. discriminate Hlook.
Qed.

(** What happens there: the user's message alone, no request, one toast. *)
Example sendMessage_signed_out_run :
  chats (sendMessage signed_out_world).2
  = [Chat.mk "1" [user_message 1700000000000 1700000000001 "Hello AI"]] /\
  requests (sendMessage signed_out_world).2 = [] /\
  toasts (sendMessage signed_out_world).2 = ["AI response failed."].
Proof. vm_compute. done. Qed.

(** An input with blanks around it is sent trimmed. *)
Example sendMessage_trims :
  ChatMessage.text <$>
    (Chat.messages <$> chats (sendMessage (with_input "  Hello AI " hello_world)).2)
    !!! 0%nat
  = ["Hello AI"; "AI echo: Hello AI"].
Proof. vm_compute. reflexivity. Qed.

(** C3.  When the input is not blank and the request of this send fails (the
    network call is rejected, or the status is outside 200..299, or there is
    no token to make it with), [fetchChatResponse] throws to its caller;
    [sendMessage] itself returns, one toast "AI response failed." is shown,
    and the sessions are what appending the user's message alone makes of
    them: every session is as it was or has the user's message, and no
    other, at its end. *)
Theorem sendMessage_failure (w : World) :
  let text := Builtin.trim (input w) in
  let n := clock_reads w in
  let userMsg := user_message (clock w n) (clock w (S n)) text in
  text <> "" ->
  failed (server w (requests w)
            (chat_request (VITE_API_URL w)
               (default "" (localStorage w !! "access_token"))
               {| user_input := text |})) = true ->
  (exists e w1, fetchChatResponse {| user_input := text |} w = (Throw e, w1)) /\
  exists w',
    sendMessage w = (Normal tt, w') /\
    toasts w' = toasts w ++ ["AI response failed."] /\
    ChatMessage.fromChild userMsg = true /\
    chats w'
    = (if Builtin.truthy_opt (currentChatId w)
       then append_to (default "" (currentChatId w)) userMsg (chats w)
       else chats w) /\
    (forall i chat,
        chats w !! i = Some chat ->
        chats w' !! i = Some chat \/
        chats w' !! i
        = Some (Chat.mk (Chat.id chat) (Chat.messages chat ++ [userMsg]))) /\
    length (chats w') = length (chats w).
Proof.
  intros text n userMsg Htext Hfail. split.
  { destruct (fetchChatResponse_failed w _ Hfail) as (e & l & ->). eauto. }
  unfold sendMessage. fold text. rewrite (truthy_nonempty _ Htext).
  unfold addUserMessage, addAIMessage, if_truthy, addMessageToChat, Date_now,
    toast_error.
  js_unfold. simpl. fold n userMsg.
  assert (forall cid i chat,
             chats w !! i = Some chat ->
             append_to cid userMsg (chats w) !! i = Some chat \/
             append_to cid userMsg (chats w) !! i
             = Some (Chat.mk (Chat.id chat) (Chat.messages chat ++ [userMsg])))
    as Hsession.
  { intros cid i chat Hi.
    destruct (decide (Chat.id chat = cid)) as [Hid|Hid].
    - right. rewrite Hid. by apply append_to_hit.
    - left. by apply append_to_miss. }
  destruct (currentChatId w) as [cid|]; simpl;
    [destruct (Builtin.truthy cid); simpl|];
    (match goal with
     | |- context [fetchChatResponse ?i ?W] =>
         destruct (fetchChatResponse_failed W i) as (e & l & ->);
         [exact Hfail|]
     end);
    simpl; eexists; (split; [reflexivity|]); simpl;
    repeat split; auto using append_to_length.
Qed.

Lemma sendMessage_failure_witness :
  exists w',
    sendMessage failing_world = (Normal tt, w') /\
    toasts w' = ["AI response failed."] /\
    chats w'
    = [Chat.mk "1" [user_message 1700000000000 1700000000001 "Hello AI"]].
Proof.
  destruct (sendMessage_failure failing_world) as (_ & w' & Hrun & Ht & _ & Hc & _);
    [done|reflexivity|].
  exists w'. split; [exact Hrun|]. split; [exact Ht|]. exact Hc.
Defined.

(** ** The outbox and the "online" handler *)

Lemma for_of_cons {A} (x : A) (l : list A) (f : A -> Js unit) (w : World) :
  for_of (x :: l) f w
  = match f x w with
    | (Normal _, w') => for_of l f w'
    | (Throw e, w') => (Throw e, w')
    end.
Proof. reflexivity. Qed.

(** The handler ends at [db.transaction]: it throws there, and the world is
    as it was. *)
Lemma online_handler_throws (w : World) :
  online_handler w
  = (Throw (TypeError "db.transaction is not a function"), w).
Proof. reflexivity. Qed.

(** C1.  The handler does not clear the outbox.  It throws a [TypeError] at
    [db.transaction], before it has read, sent or cleared anything, whatever
    the endpoint would answer; the outbox is as it was, so an outbox that
    held messages is not empty afterwards. *)
Theorem online_handler_keeps_outbox (w : World) :
  (exists msg, online_handler w = (Throw (TypeError msg), w)) /\
  outbox (online_handler w).2 = outbox w /\
  (records (outbox w) <> [] -> ~ outbox_empty_after_flush w).
Proof.
  split; [eexists; apply online_handler_throws|].
  unfold outbox_empty_after_flush. rewrite online_handler_throws. simpl.
  by split.
Qed.

(** Two messages queued, an endpoint that answers 500 to every POST: the
    handler throws and both messages stay. *)
Example online_handler_failing_run :
  fails_every_post (queued_two failing_server) /\
  (online_handler (queued_two failing_server)).1
  = Throw (TypeError "db.transaction is not a function") /\
  records (outbox (online_handler (queued_two failing_server)).2)
  = [(NumKey 1, "first"); (NumKey 2, "second")].
Proof. split; [by intros h req|]. by vm_compute. Qed.

(** C8.  The handler posts no queued entry.  It throws at [db.transaction]
    before it has read the outbox, so the requests made are the ones made
    before, for every outbox and every endpoint; with an entry queued, not
    every entry has been posted. *)
Theorem online_handler_posts_nothing (w : World) :
  requests (online_handler w).2 = requests w /\
  (records (outbox w) <> [] -> ~ flush_posts_every_entry w).
Proof.
  unfold flush_posts_every_entry. rewrite online_handler_throws. simpl.
  split; [done|]. intros Hrecs Hposts.
  apply (f_equal length) in Hposts.
  rewrite length_app, length_fmap in Hposts.
  unfold store_getAll in Hposts. rewrite length_fmap in Hposts.
  destruct (records (outbox w)); [done|]. simpl in Hposts. lia.
Qed.

(** Two messages queued, the mocked endpoint ready to answer: no request
    goes out. *)
Example online_handler_echo_run :
  store_getAll (outbox (queued_two echo_server))
  = [{| msg_id := Some (NumKey 1); msg_text := "first" |};
     {| msg_id := Some (NumKey 2); msg_text := "second" |}] /\
  requests (online_handler (queued_two echo_server)).2 = [].
Proof. by vm_compute. Qed.

(** *** The order of the outbox *)

Lemma key_compare_below (k : IDBKey) (g : Z) :
  key_compare k (NumKey g) = Lt -> key_compare (NumKey g) k = Gt.
Proof.
  destruct k as [n|s]; simpl; [|done].
  rewrite Z.compare_lt_iff, Z.compare_gt_iff. lia.
Qed.

Lemma below_mono (g g' : Z) (l : list (IDBKey * string)) :
  g <= g' -> below g l -> below g' l.
Proof.
  intros Hle Hb. eapply Forall_impl; [exact Hb|].
  intros [[n|s] v]; simpl; [|done].
  rewrite !Z.compare_lt_iff. lia.
Qed.

Lemma insert_record_last (g : Z) (v : string) (l : list (IDBKey * string)) :
  below g l -> insert_record (NumKey g) v l = Some (l ++ [(NumKey g, v)]).
Proof.
  induction 1 as [|[k v'] l Hk _ IH]; [done|].
  cbn [insert_record]. cbn [fst] in Hk.
  rewrite (key_compare_below _ _ Hk), IH. done.
Qed.

Lemma enqueue_plain (texts : list string) : forall w : World,
  below (generator (outbox w)) (records (outbox w)) ->
  generator (outbox w) + Z.of_nat (length texts) <= generator_max + 1 ->
  for_of (plain <$> texts) saveMessageToOutbox w
  = (Normal tt,
     with_outbox
       {| records := records (outbox w)
                     ++ keyed_from (generator (outbox w)) texts;
          generator := generator (outbox w) + Z.of_nat (length texts) |} w).
Proof.
  induction texts as [|t texts IH]; intros w Hbelow Hmax.
  - simpl. unfold mret, Js_ret, with_outbox, keyed_from. simpl.
    rewrite app_nil_r, Z.add_0_r. destruct w as [? ? ? ? ? ? ? [] ?]; done.
  - rewrite fmap_cons, for_of_cons.
    unfold saveMessageToOutbox at 1, store_add. cbn [plain msg_id msg_text].
    rewrite length_cons in Hmax.
    destruct (generator_max <? generator (outbox w)) eqn:Hg;
      [apply Z.ltb_lt in Hg; lia|].
    rewrite (insert_record_last _ _ _ Hbelow). cbn [mbind option_bind].
    rewrite IH; cbn [outbox with_outbox records generator].
    + unfold with_outbox; cbn. f_equal. f_equal. f_equal.
      * rewrite <- app_assoc. f_equal. unfold keyed_from.
        cbn [app Z.of_nat]. rewrite Z.add_0_r. f_equal.
        apply imap_ext. intros i x _. cbn [compose]. do 2 f_equal. lia.
      * lia.
    + apply Forall_app. split.
      * eapply below_mono; [|done]. lia.
      * apply Forall_singleton. cbn. apply Z.compare_lt_iff. lia.
    + lia.
Qed.

Lemma enqueue_plain_in_order (texts : list string) (w : World) :
  outbox w = empty_store ->
  Z.of_nat (length texts) <= generator_max ->
  exists w',
    for_of (plain <$> texts) saveMessageToOutbox w = (Normal tt, w') /\
    store_getAll (outbox w')
    = imap (fun i t => {| msg_id := Some (NumKey (1 + Z.of_nat i));
                          msg_text := t |}) texts.
Proof.
  intros Hempty Hlen. eexists. split.
  - apply enqueue_plain; rewrite Hempty; cbn; [constructor | lia].
  - cbn. rewrite Hempty. cbn. unfold store_getAll, keyed_from. cbn.
    by rewrite fmap_imap.
Qed.

Example own_ids_sort_by_id :
  store_getAll
    (outbox (for_of [{| msg_id := Some (StrKey "b"); msg_text := "first" |};
                     plain "second";
                     {| msg_id := Some (NumKey 7); msg_text := "third" |};
                     {| msg_id := Some (StrKey "a"); msg_text := "fourth" |};
                     plain "fifth"]
               saveMessageToOutbox hello_world).2)
  = [{| msg_id := Some (NumKey 1); msg_text := "second" |};
     {| msg_id := Some (NumKey 7); msg_text := "third" |};
     {| msg_id := Some (NumKey 8); msg_text := "fifth" |};
     {| msg_id := Some (StrKey "a"); msg_text := "fourth" |};
     {| msg_id := Some (StrKey "b"); msg_text := "first" |}].
Proof. reflexivity. Qed.

Example same_id_refused :
  saveMessageToOutbox {| msg_id := Some (NumKey 1); msg_text := "again" |}
    (queued_two echo_server)
  = (Throw ConstraintError, queued_two echo_server).
Proof. reflexivity. Qed.

Lemma key_compare_gt_lt (a b : IDBKey) :
  key_compare a b = Gt -> key_compare b a = Lt.
Proof.
  destruct a as [x|x], b as [y|y]; simpl; try done.
  - rewrite (Z.compare_antisym x y). by destruct (x ?= y).
  - rewrite (String.compare_antisym y x). by destruct (String.compare x y).
Qed.

Lemma insert_record_HdRel (x : IDBKey * string) (k : IDBKey) (v : string)
    (l l' : list (IDBKey * string)) :
  HdRel key_lt x l -> key_lt x (k, v) ->
  insert_record k v l = Some l' -> HdRel key_lt x l'.
Proof.
  intros Hhd Hx. destruct l as [|[k' v'] l]; simpl.
  - intros [= <-]. by constructor.
  - destruct (key_compare k k'); [done| |].
    + intros [= <-]. by constructor.
    + destruct (insert_record k v l); simpl; [|done].
      intros [= <-]. constructor. by inversion Hhd.
Qed.

Lemma insert_record_sorted (k : IDBKey) (v : string)
    (l : list (IDBKey * string)) : forall l',
  Sorted key_lt l -> insert_record k v l = Some l' -> Sorted key_lt l'.
Proof.
  induction l as [|[k' v'] l IH]; intros l' Hs; simpl.
  - intros [= <-]. by repeat constructor.
  - destruct (key_compare k k') eqn:Hcmp; [done| |].
    + intros [= <-]. constructor; [done|]. by constructor.
    + destruct (insert_record k v l) as [l''|] eqn:Hins; simpl; [|done].
      intros [= <-]. inversion Hs as [|? ? Hs' Hhd]; subst.
      constructor; [by apply IH|].
      eapply insert_record_HdRel; [exact Hhd| |exact Hins].
      by apply key_compare_gt_lt.
Qed.

Lemma store_add_sorted (msg : OutboxMsg) (s s' : ObjectStore) :
  Sorted key_lt (records s) -> store_add msg s = Some s' ->
  Sorted key_lt (records s').
Proof.
  intros Hs. unfold store_add.
  destruct (msg_id msg) as [k|].
  - destruct (insert_record k _ _) as [l|] eqn:Hins; simpl; [|done].
    intros [= <-]. simpl. by eapply insert_record_sorted.
  - destruct (generator_max <? generator s); [done|].
    destruct (insert_record _ _ _) as [l|] eqn:Hins; simpl; [|done].
    intros [= <-]. simpl. by eapply insert_record_sorted.
Qed.

(** Whatever is handed to the outbox, accepted or refused, the records stay
    in ascending key order. *)
Lemma saveMessageToOutbox_sorted (msgs : list OutboxMsg) : forall w : World,
  Sorted key_lt (records (outbox w)) ->
  Sorted key_lt
    (records (outbox (for_of msgs
                        (fun msg => try_catch (saveMessageToOutbox msg)
                                      (fun _ => mret tt)) w).2)).
Proof.
  induction msgs as [|msg msgs IH]; intros w Hs; [done|].
  cbn [for_of]. unfold mbind, Js_bind, try_catch at 1, saveMessageToOutbox at 1.
  destruct (store_add msg (outbox w)) as [s|] eqn:Hadd.
  - apply IH. simpl. by eapply store_add_sorted.
  - by apply IH.
Qed.

(** * Further properties of the code *)

(** ** More on the session store *)

Lemma pretty_N_go_nonempty (x : N) : forall s : string,
  s <> "" -> pretty_N_go x s <> "".
Proof.
  induction (N.lt_wf_0 x) as [x _ IH]; intros s Hs.
  destruct (decide (0 < x)%N) as [Hx|Hx].
  - rewrite pretty_N_go_step by done. apply IH; [|done].
    apply N.div_lt; lia.
  - assert (x = 0%N) as -> by lia. by rewrite pretty_N_go_0.
Qed.

Lemma pretty_N_nonempty (x : N) : pretty x <> "".
Proof.
  unfold pretty, pretty_N. case_decide; [done|].
  destruct (decide (0 < x)%N) as [Hx|Hx]; [|lia].
  rewrite pretty_N_go_step by done. by apply pretty_N_go_nonempty.
Qed.

Lemma toString_nonempty (n : Z) : Builtin.toString n <> "".
Proof.
  unfold Builtin.toString, pretty, pretty_Z.
  destruct n; [done| |done]. apply pretty_N_nonempty.
Qed.

Lemma toString_truthy (n : Z) : Builtin.truthy (Builtin.toString n) = true.
Proof. apply truthy_nonempty, toString_nonempty. Qed.

(** X1.  The effect of the chat page: with an active id it does nothing;
    without one it adds a session with no messages after the sessions there
    are and makes it the active one, under an id that is not empty. *)
Theorem ensure_chat_active (w : World) (cur : option string) :
  exists w',
    ensure_chat cur w = (Normal tt, w') /\
    (Builtin.truthy_opt cur = true -> w' = w) /\
    (Builtin.truthy_opt cur = false ->
     exists cid,
       cid <> "" /\
       currentChatId w' = Some cid /\
       chats w' = chats w ++ [Chat.mk cid []] /\
       has_session w' cid).
Proof.
  unfold ensure_chat. destruct (Builtin.truthy_opt cur); simpl.
  - exists w. by repeat split.
  - unfold createNewChat, Date_now. js_unfold. simpl.
    eexists. split; [reflexivity|]. split; [done|]. intros _.
    exists (Builtin.toString (clock w (clock_reads w))).
    split; [apply toString_nonempty|]. simpl. do 2 (split; [done|]).
    exists (length (chats w)), (Chat.mk (Builtin.toString (clock w (clock_reads w))) []).
    split; [|done]. simpl. by apply list_lookup_middle.
Qed.

(** X2.  Run twice by the same render, which saw no active id, the effect
    leaves two new sessions, and the active one is the second: the first
    stays behind with no messages. *)
Theorem ensure_chat_twice (w : World) (cur : option string) :
  Builtin.truthy_opt cur = false ->
  exists id1 id2 w',
    (ensure_chat cur ;; ensure_chat cur) w = (Normal tt, w') /\
    chats w' = chats w ++ [Chat.mk id1 []; Chat.mk id2 []] /\
    currentChatId w' = Some id2 /\
    id1 = Builtin.toString (clock w (clock_reads w)) /\
    id2 = Builtin.toString (clock w (S (clock_reads w))).
Proof.
  intros Hcur. unfold ensure_chat. rewrite Hcur. simpl.
  unfold createNewChat, Date_now. js_unfold. simpl.
  do 3 eexists. split; [reflexivity|]. simpl.
  rewrite <- app_assoc. by repeat split.
Qed.

Lemma ensure_chat_twice_witness :
  exists w',
    (ensure_chat None ;; ensure_chat None) frozen_world = (Normal tt, w') /\
    chats w' = [Chat.mk "1" []; Chat.mk "1700000000000" [];
                Chat.mk "1700000000000" []].
Proof.
  destruct (ensure_chat_twice frozen_world None eq_refl)
    as (id1 & id2 & w' & Hrun & Hchats & _ & -> & ->).
  exists w'. split; [exact Hrun|]. rewrite Hchats. vm_compute. reflexivity.
Defined.

(** X3.  "New chat" in the sidebar: once the updates of the handler are
    committed, a session with no messages has been added after the others
    and is the active one, and its id is not empty. *)
Theorem handleNewChat_activates (w : World) :
  exists cid w',
    handleNewChat w = (Normal tt, w') /\
    cid <> "" /\
    chats w' = chats w ++ [Chat.mk cid []] /\
    currentChatId w' = Some cid /\
    has_session w' cid.
Proof.
  unfold handleNewChat, createNewChat, setCurrentChatId, Date_now.
  js_unfold. simpl.
  exists (Builtin.toString (clock w (clock_reads w))). eexists.
  split; [reflexivity|]. split; [apply toString_nonempty|]. simpl.
  do 2 (split; [done|]).
  exists (length (chats w)), (Chat.mk (Builtin.toString (clock w (clock_reads w))) []).
  split; [|done]. simpl. by apply list_lookup_middle.
Qed.

(** X4.  Appends to sessions with different ids commute. *)
Theorem addMessageToChat_commute (w : World) (a b : string)
    (m1 m2 : ChatMessage.t) :
  a <> b ->
  (addMessageToChat a m1 ;; addMessageToChat b m2) w
  = (addMessageToChat b m2 ;; addMessageToChat a m1) w.
Proof.
  intros Hab. unfold addMessageToChat. js_unfold. simpl.
  f_equal. unfold with_chats; simpl. f_equal.
  unfold append_to. rewrite <- !list_fmap_compose.
  apply list_fmap_ext. intros i chat _. simpl.
  repeat (match goal with
          | |- context [String.eqb ?x ?y] =>
              destruct (String.eqb_spec x y); simpl
          end);
    simpl in *; congruence.
Qed.

Lemma addMessageToChat_commute_witness :
  (addMessageToChat "1" (user_message 1 1 "a") ;;
   addMessageToChat "2" (user_message 2 2 "b")) hello_world
  = (addMessageToChat "2" (user_message 2 2 "b") ;;
     addMessageToChat "1" (user_message 1 1 "a")) hello_world.
Proof. apply (addMessageToChat_commute hello_world "1" "2"). done. Defined.

(** ** More on the message pipeline *)

(** [fetchChatResponse] looks at the token, the base URL and the network
    and at nothing else, and changes the requests made and nothing else. *)
Lemma fetchChatResponse_only_network (w W : World)
    (input : FetchChatResponseInput) :
  localStorage W = localStorage w -> server W = server w ->
  requests W = requests w -> VITE_API_URL W = VITE_API_URL w ->
  fetchChatResponse input W
  = ((fetchChatResponse input w).1,
     with_requests (requests (fetchChatResponse input w).2) W).
Proof.
  intros Hls Hsrv Hreq Hurl.
  unfold fetchChatResponse, localStorage_getItem, fetch, Response_text,
    Response_json.
  js_unfold. simpl. rewrite Hls.
  destruct (Builtin.truthy_opt (localStorage w !! "access_token")); simpl.
  - rewrite Hsrv, Hreq, Hurl.
    destruct (server w _ _) as [r|]; simpl; [|done].
    destruct (ok r); simpl; [|done]. by destruct (body_json r).
  - unfold with_requests. by rewrite <- Hreq, world_eta.
Qed.

(** The requests after [fetchChatResponse]: the ones before, and the one to
    the chat endpoint when there is a token. *)
Lemma fetchChatResponse_requests (w : World) (input : FetchChatResponseInput) :
  (Builtin.truthy_opt (localStorage w !! "access_token") = false /\
   fetchChatResponse input w = (Throw (Error "No access token found"), w))
  \/
  (exists tok,
      localStorage w !! "access_token" = Some tok /\ tok <> "" /\
      requests (fetchChatResponse input w).2
      = requests w ++ [chat_request (VITE_API_URL w) tok input]).
Proof.
  unfold fetchChatResponse, localStorage_getItem, fetch, Response_text,
    Response_json.
  js_unfold.
  destruct (localStorage w !! "access_token") as [tok|] eqn:Htok; simpl;
    [|by left].
  destruct tok as [|c tok]; simpl; [by left|].
  right. exists (String c tok). do 2 (split; [done|]).
  destruct (server w _ _) as [r|]; simpl; [|done].
  destruct (ok r); simpl; [|done]. by destruct (body_json r).
Qed.

(** One run of [sendMessage] on an input that is not blank, field by
    field; [c] is how [fetchChatResponse] completes. *)
Lemma sendMessage_run (w : World) :
  let text := Builtin.trim (input w) in
  let n := clock_reads w in
  let cur := currentChatId w in
  let userMsg := user_message (clock w n) (clock w (S n)) text in
  let aiMsg := ai_message (clock w (S (S n))) (clock w (S (S (S n)))) in
  let c := (fetchChatResponse {| user_input := text |} w).1 in
  text <> "" ->
  exists w',
    sendMessage w = (Normal tt, w') /\
    chats w'
    = match c with
      | Normal a => with_user cur (aiMsg a) (with_user cur userMsg (chats w))
      | Throw _ => with_user cur userMsg (chats w)
      end /\
    messages w'
    = messages w ++ (if Builtin.truthy_opt cur then [userMsg] else [])
      ++ match c with Normal a => [aiMsg a] | Throw _ => [] end /\
    toasts w'
    = toasts w
      ++ match c with Normal _ => [] | Throw _ => ["AI response failed."] end /\
    requests w' = requests (fetchChatResponse {| user_input := text |} w).2 /\
    currentChatId w' = cur /\ localStorage w' = localStorage w /\
    outbox w' = outbox w /\ server w' = server w /\
    input w' = "" /\ isTyping w' = false /\ isLoading w' = false.
Proof.
  intros text n cur userMsg aiMsg c Htext.
  unfold sendMessage. fold text. rewrite (truthy_nonempty _ Htext).
  unfold addUserMessage, addAIMessage, if_truthy, addMessageToChat, Date_now,
    toast_error, with_user.
  js_unfold. simpl. fold n userMsg.
  subst cur.
  destruct (currentChatId w) as [cid|] eqn:Hcur; simpl;
    [destruct (Builtin.truthy cid); simpl|];
    (match goal with
     | |- context [fetchChatResponse ?i ?W] =>
         rewrite (fetchChatResponse_only_network w W i) by reflexivity
     end);
    fold c; destruct c as [a|e]; simpl; eexists; (split; [reflexivity|]);
    simpl; rewrite ?app_nil_r, <- ?app_assoc; repeat split; done.
Qed.

Lemma with_user_ids (cur : option string) (m : ChatMessage.t) (l : list Chat.t) :
  Chat.id <$> with_user cur m l = Chat.id <$> l.
Proof.
  unfold with_user. destruct (Builtin.truthy_opt cur); [|done].
  apply append_to_ids.
Qed.

Lemma with_user_lookup (cur : option string) (m : ChatMessage.t)
    (l : list Chat.t) (i : nat) (chat : Chat.t) :
  l !! i = Some chat ->
  exists more,
    with_user cur m l !! i
    = Some (Chat.mk (Chat.id chat) (Chat.messages chat ++ more)) /\
    (more = [] \/ (more = [m] /\ cur = Some (Chat.id chat))).
Proof.
  intros Hi. unfold with_user.
  destruct cur as [cid|]; simpl; [destruct (Builtin.truthy cid); simpl|].
  - destruct (decide (Chat.id chat = cid)) as [Hid|Hid].
    + exists [m]. split; [|right; by rewrite Hid].
      rewrite Hid. by apply append_to_hit.
    + exists []. split; [|by left].
      rewrite app_nil_r. destruct chat. by apply append_to_miss.
  - exists []. split; [|by left]. rewrite app_nil_r. by destruct chat.
  - exists []. split; [|by left]. rewrite app_nil_r. by destruct chat.
Qed.

Lemma with_user_unknown (cur : option string) (m : ChatMessage.t)
    (l : list Chat.t) :
  (forall chat, chat ∈ l -> Some (Chat.id chat) <> cur) ->
  with_user cur m l = l.
Proof.
  intros Hno. unfold with_user.
  destruct cur as [cid|]; simpl; [|done].
  destruct (Builtin.truthy cid); [|done].
  apply append_to_unknown. intros chat Hin Hid. apply (Hno chat Hin).
  by rewrite Hid.
Qed.

(** On a blank input [sendMessage] is over before it has done anything. *)
Lemma sendMessage_skips_blank (w : World) :
  Builtin.trim (input w) = "" -> sendMessage w = (Normal tt, w).
Proof. intros Hblank. unfold sendMessage. by rewrite Hblank. Qed.

(** X5.  [sendMessage] returns whatever the network does: no error leaves
    it.  It keeps the sessions' ids and their order, the active id, local
    storage and the outbox; after an input that is not blank the input
    field is empty and neither indicator is on. *)
Theorem sendMessage_always_returns (w : World) :
  exists w',
    sendMessage w = (Normal tt, w') /\
    Chat.id <$> chats w' = Chat.id <$> chats w /\
    currentChatId w' = currentChatId w /\
    localStorage w' = localStorage w /\
    outbox w' = outbox w /\
    (Builtin.trim (input w) <> "" ->
     input w' = "" /\ isTyping w' = false /\ isLoading w' = false).
Proof.
  destruct (decide (Builtin.trim (input w) = "")) as [Hblank|Htext].
  - exists w. split; [by apply sendMessage_skips_blank|]. by repeat split.
  - destruct (sendMessage_run w Htext)
      as (w' & Hrun & Hchats & _ & _ & _ & Hcur & Hls & Hbox & _ & Hi & Ht & Hl).
    exists w'. split; [done|]. split.
    + rewrite Hchats.
      destruct (fetchChatResponse _ w).1; by rewrite !with_user_ids.
    + by repeat split.
Qed.

(** X6.  [sendMessage] only ever appends: every session keeps its id and
    its messages and gets at most two more at the end, and none at all
    unless its id is the active one. *)
Theorem sendMessage_append_only (w : World) (i : nat) (chat : Chat.t) :
  chats w !! i = Some chat ->
  exists more,
    chats (sendMessage w).2 !! i
    = Some (Chat.mk (Chat.id chat) (Chat.messages chat ++ more)) /\
    (length more <= 2)%nat /\
    (currentChatId w <> Some (Chat.id chat) -> more = []).
Proof.
  intros Hi.
  destruct (decide (Builtin.trim (input w) = "")) as [Hblank|Htext].
  - rewrite (sendMessage_skips_blank w Hblank). exists []. simpl.
    rewrite app_nil_r. destruct chat.
    split; [done|]. split; [simpl; lia|done].
  - destruct (sendMessage_run w Htext) as (w' & -> & Hchats & _).
    simpl. rewrite Hchats.
    destruct (with_user_lookup (currentChatId w)
                (user_message (clock w (clock_reads w))
                   (clock w (S (clock_reads w))) (Builtin.trim (input w)))
                _ _ _ Hi) as (m1 & H1 & Hm1).
    destruct (fetchChatResponse _ w).1 as [a|e].
    + destruct (with_user_lookup (currentChatId w)
                  (ai_message (clock w (S (S (clock_reads w))))
                     (clock w (S (S (S (clock_reads w))))) a)
                  _ _ _ H1) as (m2 & H2 & Hm2).
      simpl in H2. rewrite <- app_assoc in H2.
      exists (m1 ++ m2). split; [done|]. split.
      * rewrite length_app.
        destruct Hm1 as [->|[-> _]], Hm2 as [->|[-> _]]; simpl; lia.
      * intros Hne.
        destruct Hm1 as [->|[_ ?]], Hm2 as [->|[_ ?]]; done.
    + exists m1. split; [done|]. split.
      * destruct Hm1 as [->|[-> _]]; simpl; lia.
      * intros Hne. destruct Hm1 as [->|[_ ?]]; done.
Qed.

Lemma sendMessage_append_only_witness :
  exists more,
    chats (sendMessage hello_world).2 !! 0%nat
    = Some (Chat.mk "1" ([] ++ more)) /\
    (length more <= 2)%nat /\
    (currentChatId hello_world <> Some "1" -> more = []).
Proof.
  apply (sendMessage_append_only hello_world 0 (Chat.mk "1" [])).
  reflexivity.
Defined.

(** X7.  [sendMessage] makes at most one request, and none without a token:
    the requests made are as they were, or one more, to the chat endpoint,
    with the token as bearer and the trimmed input as [user_input]. *)
Theorem sendMessage_at_most_one_request (w : World) :
  requests (sendMessage w).2 = requests w \/
  exists tok,
    localStorage w !! "access_token" = Some tok /\ tok <> "" /\
    requests (sendMessage w).2
    = requests w
      ++ [chat_request (VITE_API_URL w) tok
            {| user_input := Builtin.trim (input w) |}].
Proof.
  destruct (decide (Builtin.trim (input w) = "")) as [Hblank|Htext].
  - left. by rewrite (sendMessage_skips_blank w Hblank).
  - destruct (sendMessage_run w Htext)
      as (w' & -> & _ & _ & _ & Hreq & _).
    simpl. rewrite Hreq.
    destruct (fetchChatResponse_requests w
                {| user_input := Builtin.trim (input w) |})
      as [[_ ->]|(tok & Htok & Hne & Hr)]; [by left|].
    right. by exists tok.
Qed.

(** X8.  When no session has the active id (there is none, or it names a
    session that is not in the collection), [sendMessage] leaves every
    session as it was, whatever the endpoint answers. *)
Theorem sendMessage_without_session (w : World) :
  (forall chat, chat ∈ chats w -> Some (Chat.id chat) <> currentChatId w) ->
  chats (sendMessage w).2 = chats w.
Proof.
  intros Hno.
  destruct (decide (Builtin.trim (input w) = "")) as [Hblank|Htext].
  - by rewrite (sendMessage_skips_blank w Hblank).
  - destruct (sendMessage_run w Htext) as (w' & -> & Hchats & _).
    simpl. rewrite Hchats.
    destruct (fetchChatResponse _ w).1;
      by rewrite ?(with_user_unknown _ _ (chats w)) by done.
Qed.

Lemma sendMessage_without_session_witness :
  chats (sendMessage (with_currentChatId (Some "gone") hello_world)).2
  = [Chat.mk "1" []].
Proof.
  apply (sendMessage_without_session
           (with_currentChatId (Some "gone") hello_world)).
  intros chat Hin. apply list_elem_of_singleton in Hin as ->. done.
Defined.

(** X9.  What the hook shows after a send that succeeds: its own message
    list gets the AI's message, and before it the user's only when there is
    an active id; no toast is shown, the input field is empty and neither
    indicator is on.  Without an active id the AI's reply is there and the
    user's message is nowhere. *)
Theorem sendMessage_success_page_state (w : World) (tok : string)
    (r : Response) (a : AIResponse.t) :
  let text := Builtin.trim (input w) in
  let n := clock_reads w in
  let userMsg := user_message (clock w n) (clock w (S n)) text in
  let aiMsg := ai_message (clock w (S (S n))) (clock w (S (S (S n)))) a in
  text <> "" ->
  localStorage w !! "access_token" = Some tok -> tok <> "" ->
  server w (requests w)
    (chat_request (VITE_API_URL w) tok {| user_input := text |}) = Resolved r ->
  ok r = true ->
  body_json r = Some a ->
  exists w',
    sendMessage w = (Normal tt, w') /\
    messages w'
    = messages w
      ++ (if Builtin.truthy_opt (currentChatId w) then [userMsg] else [])
      ++ [aiMsg] /\
    toasts w' = toasts w /\
    input w' = "" /\ isTyping w' = false /\ isLoading w' = false.
Proof.
  intros text n userMsg aiMsg Htext Htok Hne Hsrv Hok Hjson.
  destruct (sendMessage_run w Htext)
    as (w' & Hrun & _ & Hmsgs & Htoasts & _ & _ & _ & _ & _ & Hin & Hty & Hld).
  fold text in Hmsgs, Htoasts.
  rewrite (fetchChatResponse_ok w _ tok r a) in Hmsgs, Htoasts by done.
  simpl in Hmsgs, Htoasts. rewrite app_nil_r in Htoasts.
  exists w'. by repeat split.
Qed.

Lemma sendMessage_success_page_state_witness :
  exists w',
    sendMessage (with_currentChatId None hello_world) = (Normal tt, w') /\
    messages w'
    = [ai_message 1700000000002 1700000000003
         (AIResponse.mk "AI echo: Hello AI" "neutral" (1 # 2)
            ["Keep the conversation going"])] /\
    chats w' = [Chat.mk "1" []].
Proof.
  destruct (sendMessage_success_page_state
              (with_currentChatId None hello_world) "token"
              {| status := 200; body_text := "";
                 body_json := Some (AIResponse.mk "AI echo: Hello AI" "neutral"
                                      (1 # 2) ["Keep the conversation going"]) |}
              (AIResponse.mk "AI echo: Hello AI" "neutral" (1 # 2)
                 ["Keep the conversation going"]))
    as (w' & Hrun & Hmsgs & _); try done.
  exists w'. split; [exact Hrun|]. split; [exact Hmsgs|].
  assert (w' = (sendMessage (with_currentChatId None hello_world)).2) as ->
    by (by rewrite Hrun).
  reflexivity.
Defined.

(** X10.  With a token, [fetchChatResponse] makes exactly one request and
    tells its failures apart: a rejected call is a [TypeError]; a status
    outside 200..299 is an [Error] whose message carries the status and the
    body text; a 2xx body that is not JSON is a [SyntaxError]. *)
Theorem fetchChatResponse_failures (w : World)
    (input : FetchChatResponseInput) (tok : string) :
  localStorage w !! "access_token" = Some tok -> tok <> "" ->
  let req := chat_request (VITE_API_URL w) tok input in
  let w' := with_requests (requests w ++ [req]) w in
  (server w (requests w) req = Rejected ->
   fetchChatResponse input w = (Throw (TypeError "Failed to fetch"), w')) /\
  (forall r,
      server w (requests w) req = Resolved r -> ok r = false ->
      fetchChatResponse input w
      = (Throw (Error ("AI error: " +:+ pretty (status r) +:+ " "
                       +:+ body_text r)), w')) /\
  (forall r,
      server w (requests w) req = Resolved r -> ok r = true ->
      body_json r = None ->
      fetchChatResponse input w
      = (Throw (SyntaxError "Unexpected token in JSON"), w')).
Proof.
  intros Htok Hne req w'.
  unfold fetchChatResponse, localStorage_getItem, fetch, Response_text,
    Response_json.
  js_unfold. rewrite Htok. simpl. rewrite (truthy_nonempty _ Hne). simpl.
  fold req. repeat split.
  - by intros ->.
  - intros r -> Hok. simpl. by rewrite Hok.
  - intros r -> Hok Hjson. simpl. by rewrite Hok, Hjson.
Qed.

Lemma fetchChatResponse_failures_witness :
  fetchChatResponse {| user_input := "Hello AI" |} failing_world
  = (Throw (Error "AI error: 500 fail"),
     with_requests
       [chat_request "/api" "token" {| user_input := "Hello AI" |}]
       failing_world).
Proof.
  destruct (fetchChatResponse_failures failing_world
              {| user_input := "Hello AI" |} "token" eq_refl)
    as (_ & Hstatus & _); [done|].
  apply (Hstatus {| status := 500; body_text := "fail"; body_json := None |});
    reflexivity.
Defined.

(** A 2xx answer whose body does not parse makes [fetchChatResponse]
    throw. *)
Lemma fetchChatResponse_not_json (w : World) (input : FetchChatResponseInput)
    (tok : string) (r : Response) :
  localStorage w !! "access_token" = Some tok -> tok <> "" ->
  server w (requests w) (chat_request (VITE_API_URL w) tok input)
  = Resolved r ->
  ok r = true -> body_json r = None ->
  fetchChatResponse input w
  = (Throw (SyntaxError "Unexpected token in JSON"),
     with_requests
       (requests w ++ [chat_request (VITE_API_URL w) tok input]) w).
Proof.
  intros Htok Hne Hsrv Hok Hjson.
  unfold fetchChatResponse, localStorage_getItem, fetch, Response_json.
  js_unfold. rewrite Htok. simpl. rewrite (truthy_nonempty _ Hne). simpl.
  rewrite Hsrv, Hok. simpl. by rewrite Hjson.
Qed.

(** X11.  A 2xx answer whose body is not JSON counts as a failure of the
    send: one toast, and the sessions get the user's message and no
    other. *)
Theorem sendMessage_malformed_body (w : World) (tok : string) (r : Response) :
  let text := Builtin.trim (input w) in
  let n := clock_reads w in
  let userMsg := user_message (clock w n) (clock w (S n)) text in
  text <> "" ->
  localStorage w !! "access_token" = Some tok -> tok <> "" ->
  server w (requests w)
    (chat_request (VITE_API_URL w) tok {| user_input := text |}) = Resolved r ->
  ok r = true ->
  body_json r = None ->
  exists w',
    sendMessage w = (Normal tt, w') /\
    toasts w' = toasts w ++ ["AI response failed."] /\
    chats w' = with_user (currentChatId w) userMsg (chats w) /\
    messages w'
    = messages w
      ++ (if Builtin.truthy_opt (currentChatId w) then [userMsg] else []).
Proof.
  intros text n userMsg Htext Htok Hne Hsrv Hok Hjson.
  destruct (sendMessage_run w Htext)
    as (w' & Hrun & Hchats & Hmsgs & Htoasts & _).
  fold text in Hchats, Hmsgs, Htoasts.
  rewrite (fetchChatResponse_not_json w _ tok r Htok Hne Hsrv Hok Hjson)
    in Hchats, Hmsgs, Htoasts.
  simpl in Hchats, Hmsgs, Htoasts. rewrite app_nil_r in Hmsgs.
  exists w'. by repeat split.
Qed.

Lemma sendMessage_malformed_body_witness :
  exists w',
    sendMessage
      (with_server (fun _ _ => Resolved {| status := 200;
                                           body_text := "<html>";
                                           body_json := None |})
         hello_world) = (Normal tt, w') /\
    toasts w' = ["AI response failed."] /\
    chats w'
    = [Chat.mk "1" [user_message 1700000000000 1700000000001 "Hello AI"]].
Proof.
  destruct (sendMessage_malformed_body
              (with_server (fun _ _ => Resolved {| status := 200;
                                                   body_text := "<html>";
                                                   body_json := None |})
                 hello_world) "token"
              {| status := 200; body_text := "<html>"; body_json := None |})
    as (w' & Hrun & Ht & Hc & _); try done.
  exists w'. split; [exact Hrun|]. split; [exact Ht|]. exact Hc.
Defined.

(** ** Strings *)

Lemma append_cons (c : ascii) (s t : string) :
  String c s +:+ t = String c (s +:+ t).
Proof. reflexivity. Qed.

Lemma append_nil_l (s : string) : "" +:+ s = s.
Proof. reflexivity. Qed.

Lemma append_assoc (s t u : string) : (s +:+ t) +:+ u = s +:+ (t +:+ u).
Proof.
  induction s as [|c s IH]; [done|]. by rewrite !append_cons, IH.
Qed.

Lemma append_nonempty_l (s t : string) : s <> "" -> s +:+ t <> "".
Proof. by destruct s. Qed.

Lemma prefix_spec (r : string) : forall s : string,
  String.prefix r s = true <-> exists post, s = r +:+ post.
Proof.
  induction r as [|a r IH]; intros s.
  - destruct s; simpl; split; eauto.
  - destruct s as [|b s]; simpl.
    + split; [done|]. by intros [post ?].
    + destruct (ascii_dec a b) as [->|Hab].
      * rewrite IH. split; intros [post Hp]; exists post.
        -- by rewrite append_cons, Hp.
        -- rewrite append_cons in Hp. by injection Hp.
      * split; [done|]. intros [post Hp]. rewrite append_cons in Hp.
        injection Hp as Hb _. by destruct Hab.
Qed.

(** [includes] finds [r] in [s] exactly when [s] is something, then [r],
    then something. *)
Lemma includes_spec (s r : string) :
  includes s r = true <-> exists pre post, s = pre +:+ r +:+ post.
Proof.
  induction s as [|c s IH].
  - cbn [includes]. rewrite orb_false_r, prefix_spec. split.
    + intros [post Hp]. by exists "", post.
    + intros (pre & post & Hp). destruct pre; [by exists post|done].
  - cbn [includes]. rewrite orb_true_iff, prefix_spec, IH. split.
    + intros [[post Hp]|(pre & post & Hp)].
      * by exists "", post.
      * exists (String c pre), post. by rewrite append_cons, Hp.
    + intros (pre & post & Hp). destruct pre as [|c' pre].
      * left. by exists post.
      * right. rewrite append_cons in Hp. injection Hp as _ Hp.
        by exists pre, post.
Qed.

(** ** [cn] *)

Lemma kept_app (l1 l2 : list (option string)) :
  kept (l1 ++ l2) = kept l1 ++ kept l2.
Proof. unfold kept. by rewrite filter_app, fmap_app. Qed.

Lemma kept_nonempty (l : list (option string)) :
  Forall (fun s => s <> "") (kept l).
Proof.
  unfold kept. apply Forall_fmap, Forall_forall.
  intros [s|] Hin%list_elem_of_filter; simpl in *; [|by destruct Hin].
  destruct Hin as [Hs _]. by destruct s.
Qed.

Lemma join_cons (sep x y : string) (l : list string) :
  join sep (x :: y :: l) = x +:+ sep +:+ join sep (y :: l).
Proof. reflexivity. Qed.

Lemma join_nonempty (sep : string) (l : list string) :
  l <> [] -> Forall (fun s => s <> "") l -> join sep l <> "".
Proof.
  destruct l as [|x [|y l]]; [done| |]; intros _ Hall.
  - by apply Forall_cons in Hall as [? _].
  - rewrite join_cons. apply append_nonempty_l.
    by apply Forall_cons in Hall as [? _].
Qed.

Lemma join_app (sep : string) (l1 l2 : list string) :
  l1 <> [] -> l2 <> [] ->
  join sep (l1 ++ l2) = join sep l1 +:+ sep +:+ join sep l2.
Proof.
  intros H1 H2. induction l1 as [|x [|y l1] IH]; [done| |].
  - destruct l2 as [|z l2]; [done|]. reflexivity.
  - change ((x :: y :: l1) ++ l2) with (x :: y :: (l1 ++ l2)).
    rewrite !join_cons. change (y :: l1 ++ l2) with ((y :: l1) ++ l2).
    rewrite IH by done. by rewrite !append_assoc.
Qed.

(** X12.  [cn] gives the empty string exactly when every class is [false],
    [null], [undefined] or the empty string. *)
Theorem cn_empty_iff (classes : list (option string)) :
  cn classes = "" <->
  Forall (fun c => Builtin.truthy_opt c = false) classes.
Proof.
  unfold cn. fold (kept classes). split.
  - intros Hcn.
    assert (kept classes = []) as Hk.
    { destruct (kept classes) as [|x l] eqn:Hk; [done|].
      destruct (join_nonempty " " (x :: l)); [done| |done].
      rewrite <- Hk. apply kept_nonempty. }
    apply Forall_forall. intros c Hin.
    destruct (Builtin.truthy_opt c) eqn:Hc; [|done].
    apply fmap_nil_inv in Hk.
    exfalso.
    apply (filter_nil_not_elem_of _ _ c Hk); [simpl; by rewrite Hc|done].
  - intros Hall. unfold kept.
    assert (filter (fun c => Builtin.truthy_opt c) classes = []) as Hf.
    { induction Hall as [|c l Hc _ IH]; [done|].
      rewrite filter_cons, decide_False; [done|]. simpl. rewrite Hc. by intros []. }
    by rewrite Hf.
Qed.

Lemma kept_pair (a b : string) :
  kept [Some a; Some b]
  = (if Builtin.truthy a then [a] else [])
    ++ (if Builtin.truthy b then [b] else []).
Proof. by destruct a, b. Qed.

Lemma cn_kept (l : list (option string)) : cn l = join " " (kept l).
Proof. reflexivity. Qed.

(** X13.  [cn] of the results of two [cn] is [cn] of all the classes
    together: nesting calls joins the class lists. *)
Theorem cn_nested (l1 l2 : list (option string)) :
  cn [Some (cn l1); Some (cn l2)] = cn (l1 ++ l2).
Proof.
  assert (forall l, kept l <> [] -> Builtin.truthy (cn l) = true) as Hcons.
  { intros l Hl. apply truthy_nonempty. rewrite cn_kept.
    apply join_nonempty; [done|apply kept_nonempty]. }
  rewrite (cn_kept [_; _]), (cn_kept (l1 ++ l2)), kept_pair, kept_app.
  destruct (kept l1) as [|x1 k1] eqn:H1, (kept l2) as [|x2 k2] eqn:H2.
  - by rewrite !cn_kept, H1, H2.
  - rewrite (Hcons l2) by (by rewrite H2). by rewrite !cn_kept, H1, H2.
  - rewrite (Hcons l1) by (by rewrite H1).
    rewrite !cn_kept, H1, H2. simpl. by rewrite app_nil_r.
  - rewrite (Hcons l1) by (by rewrite H1).
    rewrite (Hcons l2) by (by rewrite H2).
    rewrite !cn_kept, H1, H2. by rewrite (join_app _ (x1 :: k1)).
Qed.

Example cn_sample :
  cn [Some "btn"; None; Some ""; Some "btn-primary"; None] = "btn btn-primary".
Proof. reflexivity. Qed.

(** ** The request interceptor *)

(** X14.  A request whose URL contains one of the public routes goes out
    as it came, token or no token: no [Authorization] header is added. *)
Theorem attach_token_public (w : World) (config : AxiosConfig)
    (pre route post : string) :
  route ∈ publicRoutes ->
  config_url config = Some (pre +:+ route +:+ post) ->
  attach_token config w = (Normal config, w).
Proof.
  intros Hroute Hurl. unfold attach_token. rewrite Hurl.
  assert (existsb (fun r => includes (pre +:+ route +:+ post) r) publicRoutes
          = true) as ->; [|done].
  apply existsb_exists. exists route. split.
  - by apply list_elem_of_In.
  - apply includes_spec. by exists pre, post.
Qed.

Lemma attach_token_public_witness :
  attach_token {| config_url := Some "/api/auth/login?next=/chat";
                  config_headers := ∅ |} hello_world
  = (Normal {| config_url := Some "/api/auth/login?next=/chat";
               config_headers := ∅ |}, hello_world).
Proof.
  apply (attach_token_public hello_world _ "/api" "/auth/login" "?next=/chat").
  - unfold publicRoutes. right. left.
  - reflexivity.
Defined.

(** X15.  A request to any other URL, or with no URL, gets the header
    [Authorization: Bearer <token>] when local storage has a token that is
    not empty; its URL and its other headers are as they came. *)
Theorem attach_token_private (w : World) (config : AxiosConfig)
    (tok : string) :
  (forall u route,
      config_url config = Some u -> route ∈ publicRoutes ->
      includes u route = false) ->
  localStorage w !! "access_token" = Some tok -> tok <> "" ->
  exists config',
    attach_token config w = (Normal config', w) /\
    config_url config' = config_url config /\
    config_headers config' !! "Authorization" = Some ("Bearer " +:+ tok) /\
    forall k, k <> "Authorization" ->
              config_headers config' !! k = config_headers config !! k.
Proof.
  intros Hprivate Htok Hne. unfold attach_token.
  assert (existsb (fun route => match config_url config with
                                | Some u => includes u route
                                | None => false
                                end) publicRoutes = false) as ->.
  { apply not_true_is_false. intros (route & Hin & Hinc)%existsb_exists.
    destruct (config_url config) as [u|] eqn:Hu; [|done].
    rewrite (Hprivate u route) in Hinc; [done..|by apply list_elem_of_In]. }
  simpl. unfold localStorage_getItem. js_unfold. rewrite Htok. simpl.
  rewrite (truthy_nonempty _ Hne). eexists. split; [reflexivity|]. simpl.
  split; [done|]. split; [by rewrite lookup_insert_eq|].
  intros k Hk. by rewrite lookup_insert_ne.
Qed.

Lemma attach_token_private_witness :
  exists config',
    attach_token {| config_url := Some "/auth/child/";
                    config_headers := {[ "Accept" := "application/json" ]} |}
      hello_world = (Normal config', hello_world) /\
    config_headers config' !! "Authorization" = Some "Bearer token" /\
    config_headers config' !! "Accept" = Some "application/json".
Proof.
  destruct (attach_token_private hello_world
              {| config_url := Some "/auth/child/";
                 config_headers := {[ "Accept" := "application/json" ]} |}
              "token")
    as (config' & Hrun & _ & Hauth & Hother).
  - intros u route [= <-] Hin. unfold publicRoutes in Hin.
    repeat (apply elem_of_cons in Hin as [->|Hin]; [reflexivity|]).
    by apply elem_of_nil in Hin.
  - reflexivity.
  - done.
  - exists config'. split; [exact Hrun|]. split; [exact Hauth|].
    rewrite Hother by done. reflexivity.
Defined.

(** X16.  The interceptor never throws and never changes the world; of a
    request it changes the [Authorization] header at most, and without a
    token in local storage it changes nothing. *)
Theorem attach_token_frame (w : World) (config : AxiosConfig) :
  exists config',
    attach_token config w = (Normal config', w) /\
    config_url config' = config_url config /\
    (forall k, k <> "Authorization" ->
               config_headers config' !! k = config_headers config !! k) /\
    (Builtin.truthy_opt (localStorage w !! "access_token") = false ->
     config' = config).
Proof.
  unfold attach_token, localStorage_getItem. js_unfold.
  destruct (existsb _ publicRoutes); simpl.
  - exists config. by repeat split.
  - destruct (Builtin.truthy_opt (localStorage w !! "access_token")); simpl.
    + eexists. split; [reflexivity|]. simpl. split; [done|]. split; [|done].
      intros k Hk. by rewrite lookup_insert_ne.
    + exists config. by repeat split.
Qed.

(** ** The theme *)

Lemma theme_name_inj (t1 t2 : Theme) : theme_name t1 = theme_name t2 -> t1 = t2.
Proof. by destruct t1, t2. Qed.

(** X17.  What [applyTheme] stores, [getInitialTheme] returns, whatever the
    system prefers; and [applyTheme] writes the key ["theme"] of local
    storage and no other. *)
Theorem applyTheme_getInitialTheme (w : World) (theme : Theme)
    (classList : list string) (prefers_dark : bool) :
  exists classList' w',
    applyTheme theme classList w = (Normal classList', w') /\
    getInitialTheme prefers_dark w' = (Normal theme, w') /\
    localStorage w' !! "theme" = Some (theme_name theme) /\
    forall k, k <> "theme" -> localStorage w' !! k = localStorage w !! k.
Proof.
  unfold applyTheme, getInitialTheme, localStorage_setItem,
    localStorage_getItem.
  js_unfold. simpl. do 2 eexists. split; [reflexivity|]. simpl.
  rewrite lookup_insert_eq. split; [by destruct theme|]. split; [done|].
  intros k Hk. by rewrite lookup_insert_ne.
Qed.

(** X18.  After [applyTheme] the class list has ["dark"] exactly for the
    dark theme; every other class is there exactly if it was, and a class
    list without repetitions stays one. *)
Theorem applyTheme_classList (w : World) (theme : Theme)
    (classList : list string) :
  exists classList' w',
    applyTheme theme classList w = (Normal classList', w') /\
    ("dark" ∈ classList' <-> theme = dark) /\
    (forall c, c <> "dark" -> c ∈ classList' <-> c ∈ classList) /\
    (NoDup classList -> NoDup classList').
Proof.
  unfold applyTheme, localStorage_setItem. js_unfold. simpl.
  do 2 eexists. split; [reflexivity|]. unfold classList_toggle.
  destruct theme; simpl; case_bool_decide as Hin.
  - repeat split; done.
  - split; [rewrite elem_of_app, list_elem_of_singleton; naive_solver|].
    split.
    + intros c Hc. rewrite elem_of_app, list_elem_of_singleton. tauto.
    + intros Hnd. apply NoDup_app. repeat split; [done| |apply NoDup_singleton].
      intros x Hx Hd. apply list_elem_of_singleton in Hd as ->. done.
  - split; [rewrite list_elem_of_filter; split; [by intros [? _]|done]|].
    split.
    + intros c Hc. rewrite list_elem_of_filter. tauto.
    + by apply NoDup_filter.
  - repeat split; done.
Qed.

Lemma classList_toggle_idem (token : string) (force : bool)
    (classList : list string) :
  classList_toggle token force (classList_toggle token force classList)
  = classList_toggle token force classList.
Proof.
  unfold classList_toggle at 2 3.
  destruct (decide (token ∈ classList)) as [Hin|Hin];
    [rewrite !(bool_decide_true _ Hin)|rewrite !(bool_decide_false _ Hin)];
    destruct force; unfold classList_toggle.
  - by rewrite bool_decide_true.
  - rewrite bool_decide_false; [done|].
    rewrite list_elem_of_filter. by intros [? _].
  - rewrite bool_decide_true; [done|].
    rewrite elem_of_app, list_elem_of_singleton. by right.
  - by rewrite bool_decide_false.
Qed.

(** X19.  Applying a theme a second time changes nothing more. *)
Theorem applyTheme_idempotent (w : World) (theme : Theme)
    (classList : list string) :
  exists classList' w',
    applyTheme theme classList w = (Normal classList', w') /\
    applyTheme theme classList' w' = (Normal classList', w').
Proof.
  unfold applyTheme, localStorage_setItem. js_unfold. simpl.
  do 2 eexists. split; [reflexivity|]. simpl.
  unfold with_localStorage; simpl.
  by rewrite insert_insert_eq, classList_toggle_idem.
Qed.

(** ** More on the outbox *)

Lemma insert_record_perm (k : IDBKey) (v : string)
    (l : list (IDBKey * string)) : forall l',
  insert_record k v l = Some l' -> l' ≡ₚ (k, v) :: l.
Proof.
  induction l as [|[k' v'] l IH]; intros l'; simpl.
  - by intros [= <-].
  - destruct (key_compare k k'); [done| |].
    + by intros [= <-].
    + destruct (insert_record k v l) as [l''|]; simpl; [|done].
      intros [= <-]. rewrite (IH l'' eq_refl). apply Permutation_swap.
Qed.

Lemma key_compare_refl (k : IDBKey) : key_compare k k = Eq.
Proof.
  destruct k as [n|s]; simpl; [apply Z.compare_refl|].
  by apply String_as_OT.cmp_eq.
Qed.

Lemma key_compare_eq (a b : IDBKey) : key_compare a b = Eq -> a = b.
Proof.
  destruct a as [x|x], b as [y|y]; simpl; try done.
  - by intros ->%Z.compare_eq.
  - by intros ->%String_as_OT.cmp_eq.
Qed.

Lemma key_compare_lt_gt (a b : IDBKey) :
  key_compare a b = Lt -> key_compare b a = Gt.
Proof.
  destruct a as [x|x], b as [y|y]; simpl; try done.
  - rewrite (Z.compare_antisym x y). by destruct (x ?= y).
  - rewrite (String.compare_antisym y x). by destruct (String.compare x y).
Qed.

Lemma key_lt_trans : Transitive key_lt.
Proof.
  intros [[x|x] ?] [[y|y] ?] [[z|z] ?]; unfold key_lt; simpl; try done.
  - rewrite !Z.compare_lt_iff. lia.
  - intros Hxy Hyz. apply String_as_OT.cmp_lt.
    eapply String_as_OT.lt_trans; by apply String_as_OT.cmp_lt.
Qed.

Lemma insert_record_None (k : IDBKey) (v : string)
    (l : list (IDBKey * string)) :
  insert_record k v l = None -> exists v', (k, v') ∈ l.
Proof.
  induction l as [|[k' v'] l IH]; simpl; [done|].
  destruct (key_compare k k') eqn:Hcmp; [|done|].
  - intros _. apply key_compare_eq in Hcmp as ->. exists v'. left.
  - destruct (insert_record k v l); simpl; [done|].
    intros _. destruct (IH eq_refl) as [v'' Hin]. exists v''. by right.
Qed.

Lemma insert_record_present (k : IDBKey) (v v0 : string)
    (l : list (IDBKey * string)) :
  Sorted key_lt l -> (k, v0) ∈ l -> insert_record k v l = None.
Proof.
  intros Hs%Sorted_StronglySorted; [|apply key_lt_trans].
  induction Hs as [|[k' v'] l Hs IH Hall]; intros Hin.
  - by apply elem_of_nil in Hin.
  - apply elem_of_cons in Hin as [[= <- <-]|Hin]; simpl.
    + by rewrite key_compare_refl.
    + rewrite List.Forall_forall in Hall.
      assert (key_lt (k', v') (k, v0)) as Hlt
        by (by apply Hall, list_elem_of_In).
      unfold key_lt in Hlt. simpl in Hlt.
      rewrite (key_compare_lt_gt _ _ Hlt). by rewrite IH.
Qed.

Lemma sorted_keys_NoDup (l : list (IDBKey * string)) :
  Sorted key_lt l -> NoDup l.*1.
Proof.
  intros Hs%Sorted_StronglySorted; [|apply key_lt_trans].
  induction Hs as [|[k v] l Hs IH Hall]; [constructor|].
  rewrite fmap_cons. apply NoDup_cons. split; [|done].
  intros ([k' v'] & Hk & Hin)%list_elem_of_fmap. simpl in Hk. subst k'.
  rewrite List.Forall_forall in Hall.
  assert (key_lt (k, v) (k, v')) as Hlt by (by apply Hall, list_elem_of_In).
  unfold key_lt in Hlt. simpl in Hlt. by rewrite key_compare_refl in Hlt.
Qed.

Lemma store_add_ok (msg : OutboxMsg) (s s' : ObjectStore) :
  store_ok s -> store_add msg s = Some s' -> store_ok s'.
Proof.
  intros [Hs Hgen] Hadd. split; [by eapply store_add_sorted|].
  unfold store_add in Hadd.
  destruct (msg_id msg) as [k|].
  - destruct (insert_record k _ _) as [l|] eqn:Hins; simpl in Hadd; [|done].
    injection Hadd as <-. simpl. intros n v Hin.
    pose proof (insert_record_perm _ _ _ _ Hins) as Hperm.
    rewrite Hperm in Hin.
    assert (generator s <= update_generator k (generator s)) as Hmono.
    { unfold update_generator. destruct k; [|lia].
      destruct (generator s <=? _) eqn:Hle; [apply Z.leb_le in Hle|]; lia. }
    apply elem_of_cons in Hin as [[= <- _]|Hin].
    + unfold update_generator. unfold generator_max in *.
      destruct (generator s <=? Z.min n (2 ^ 53)) eqn:Hle;
        [apply Z.leb_le in Hle|apply Z.leb_gt in Hle]; lia.
    + destruct (Hgen n v Hin); lia.
  - destruct (generator_max <? generator s); [done|].
    destruct (insert_record _ _ _) as [l|] eqn:Hins; simpl in Hadd; [|done].
    injection Hadd as <-. simpl. intros n v Hin.
    pose proof (insert_record_perm _ _ _ _ Hins) as Hperm.
    rewrite Hperm in Hin.
    apply elem_of_cons in Hin as [[= -> _]|Hin]; [lia|].
    destruct (Hgen n v Hin); lia.
Qed.

Lemma store_clear_ok (s : ObjectStore) : store_ok (store_clear s).
Proof.
  split; [constructor|]. intros n v Hin. by apply elem_of_nil in Hin.
Qed.

Lemma queued_two_ok (srv : list Request -> Request -> FetchResult) :
  store_ok (outbox (queued_two srv)).
Proof.
  split; [repeat constructor|]. intros n v Hin. left.
  change (records (outbox (queued_two srv)))
    with [(NumKey 1, "first"); (NumKey 2, "second")] in Hin.
  change (generator (outbox (queued_two srv))) with 3.
  apply elem_of_cons in Hin as [[= -> _]|Hin]; [lia|].
  apply elem_of_cons in Hin as [[= -> _]|Hin]; [lia|].
  by apply elem_of_nil in Hin.
Qed.

(** X20.  The empty store is in key order with its generator ahead of its
    numbers, and an outbox that is stays so under every
    [saveMessageToOutbox], accepted or refused, and under [clearOutbox]. *)
Theorem outbox_stays_ok (w : World) :
  store_ok empty_store /\
  (store_ok (outbox w) ->
   (forall msg, store_ok (outbox (saveMessageToOutbox msg w).2)) /\
   store_ok (outbox (clearOutbox w).2)).
Proof.
  split; [apply (store_clear_ok empty_store)|].
  intros Hok. split.
  - intros msg. unfold saveMessageToOutbox.
    destruct (store_add msg (outbox w)) as [s|] eqn:Hadd; simpl; [|done].
    by eapply store_add_ok.
  - apply store_clear_ok.
Qed.

Lemma outbox_stays_ok_witness :
  store_ok (outbox (queued_two echo_server)).
Proof.
  destruct (outbox_stays_ok hello_world) as [Hempty Hstep].
  destruct (Hstep Hempty) as [Hsave _].
  pose proof (Hsave (plain "first")) as H1.
  destruct (outbox_stays_ok (saveMessageToOutbox (plain "first") hello_world).2)
    as [_ Hstep2].
  destruct (Hstep2 H1) as [Hsave2 _].
  exact (Hsave2 (plain "second")).
Defined.

(** The ids of the messages in a store are the keys of its records. *)
Lemma store_getAll_ids (s : ObjectStore) :
  msg_id <$> store_getAll s = Some <$> (records s).*1.
Proof.
  unfold store_getAll. rewrite <- !list_fmap_compose.
  apply list_fmap_ext. by intros i [k t] _.
Qed.

Lemma after_saves_ok (msgs : list OutboxMsg) : forall w : World,
  store_ok (outbox w) -> store_ok (outbox (after_saves msgs w)).
Proof.
  induction msgs as [|msg msgs IH]; intros w Hok; [done|].
  apply IH. unfold saveMessageToOutbox.
  destruct (store_add msg (outbox w)) as [s|] eqn:Hadd; simpl; [|done].
  by eapply store_add_ok.
Qed.

(** X21.  Whatever messages are saved into a fresh outbox, with ids of their
    own or without, some of the saves refused, the messages that
    [getOutboxMessages] returns afterwards all have an id and no two of
    them have the same. *)
Theorem outbox_ids_unique (msgs : list OutboxMsg) (w : World) :
  outbox w = empty_store ->
  exists stored,
    getOutboxMessages (after_saves msgs w)
    = (Normal stored, after_saves msgs w) /\
    NoDup (msg_id <$> stored) /\
    Forall (fun m => is_Some (msg_id m)) stored.
Proof.
  intros Hfresh. eexists. split; [reflexivity|].
  assert (store_ok (outbox (after_saves msgs w))) as [Hs _].
  { apply after_saves_ok. rewrite Hfresh. apply (store_clear_ok empty_store). }
  split.
  - rewrite store_getAll_ids. apply NoDup_fmap_2; [apply _|].
    by apply sorted_keys_NoDup.
  - unfold store_getAll. apply Forall_fmap, Forall_forall.
    by intros [k t] _; eexists.
Qed.

Lemma outbox_ids_unique_witness :
  exists stored,
    getOutboxMessages
      (after_saves [{| msg_id := Some (NumKey 1); msg_text := "mine" |};
                    plain "first";
                    {| msg_id := Some (NumKey 1); msg_text := "again" |}]
         hello_world)
    = (Normal stored,
       after_saves [{| msg_id := Some (NumKey 1); msg_text := "mine" |};
                    plain "first";
                    {| msg_id := Some (NumKey 1); msg_text := "again" |}]
         hello_world) /\
    NoDup (msg_id <$> stored) /\
    Forall (fun m => is_Some (msg_id m)) stored.
Proof. apply (outbox_ids_unique _ hello_world). reflexivity. Defined.

Example after_saves_sample :
  store_getAll
    (outbox (after_saves
               [{| msg_id := Some (NumKey 1); msg_text := "mine" |};
                plain "first";
                {| msg_id := Some (NumKey 1); msg_text := "again" |}]
               hello_world))
  = [{| msg_id := Some (NumKey 1); msg_text := "mine" |};
     {| msg_id := Some (NumKey 2); msg_text := "first" |}].
Proof. reflexivity. Qed.

(** A save that is accepted changes the outbox alone, and the messages of
    the outbox are then the ones before and the new one. *)
Lemma saveMessageToOutbox_stored (w w' : World) (msg : OutboxMsg) :
  saveMessageToOutbox msg w = (Normal tt, w') ->
  exists s : ObjectStore,
    w' = with_outbox s w /\
    store_getAll s
    ≡ₚ {| msg_id := Some (default (NumKey (generator (outbox w)))
                            (msg_id msg));
          msg_text := msg_text msg |}
       :: store_getAll (outbox w).
Proof.
  unfold saveMessageToOutbox.
  destruct (store_add msg (outbox w)) as [s|] eqn:Hadd; [|done].
  intros [= <-]. unfold store_add in Hadd.
  exists s. split; [done|]. unfold store_getAll.
  destruct (msg_id msg) as [k|]; simpl.
  - destruct (insert_record k _ _) as [l|] eqn:Hins; simpl in Hadd; [|done].
    injection Hadd as <-. simpl.
    by rewrite (insert_record_perm _ _ _ _ Hins).
  - destruct (generator_max <? _); [done|].
    destruct (insert_record _ _ _) as [l|] eqn:Hins; simpl in Hadd; [|done].
    injection Hadd as <-. simpl.
    by rewrite (insert_record_perm _ _ _ _ Hins).
Qed.

(** X22.  A save that is accepted adds one record and loses none: the
    messages of the outbox are the ones before and the new one, which has
    its own [id] as key or, having none, the number of the generator; and
    the save changes the outbox and nothing else. *)
Theorem saveMessageToOutbox_adds_one (w w' : World) (msg : OutboxMsg) :
  saveMessageToOutbox msg w = (Normal tt, w') ->
  exists (k : IDBKey) (s : ObjectStore),
    k = default (NumKey (generator (outbox w))) (msg_id msg) /\
    w' = with_outbox s w /\
    store_getAll s
    ≡ₚ {| msg_id := Some k; msg_text := msg_text msg |}
       :: store_getAll (outbox w) /\
    length (store_getAll s) = S (length (store_getAll (outbox w))).
Proof.
  intros Hsave.
  destruct (saveMessageToOutbox_stored w w' msg Hsave) as (s & Hw & Hperm).
  exists (default (NumKey (generator (outbox w))) (msg_id msg)), s.
  do 3 (split; [done|]). by rewrite Hperm.
Qed.

Lemma saveMessageToOutbox_adds_one_witness :
  exists (k : IDBKey) (s : ObjectStore),
    k = NumKey 3 /\
    (saveMessageToOutbox (plain "third") (queued_two echo_server)).2
    = with_outbox s (queued_two echo_server) /\
    store_getAll s
    ≡ₚ {| msg_id := Some k; msg_text := "third" |}
       :: store_getAll (outbox (queued_two echo_server)) /\
    length (store_getAll s)
    = S (length (store_getAll (outbox (queued_two echo_server)))).
Proof.
  apply (saveMessageToOutbox_adds_one (queued_two echo_server) _
           (plain "third")).
  reflexivity.
Defined.

(** X23.  A message without an [id] is never refused for its key: in such
    an outbox, while the generator is not spent, the save returns and the
    message is stored under the number of the generator, which moves on by
    one; once the generator is spent the save throws and changes nothing. *)
Theorem saveMessageToOutbox_plain (w : World) (t : string) :
  store_ok (outbox w) ->
  let g := generator (outbox w) in
  (g <= generator_max ->
   exists w',
     saveMessageToOutbox (plain t) w = (Normal tt, w') /\
     {| msg_id := Some (NumKey g); msg_text := t |}
     ∈ store_getAll (outbox w') /\
     generator (outbox w') = g + 1) /\
  (generator_max < g ->
   saveMessageToOutbox (plain t) w = (Throw ConstraintError, w)).
Proof.
  intros [Hs Hgen] g. unfold saveMessageToOutbox, store_add. simpl. fold g.
  split; intros Hg.
  - destruct (generator_max <? g) eqn:Hlt; [apply Z.ltb_lt in Hlt; lia|].
    destruct (insert_record (NumKey g) t (records (outbox w)))
      as [l|] eqn:Hins; simpl.
    + eexists. split; [reflexivity|]. simpl. split; [|done].
      unfold store_getAll. simpl.
      apply (list_elem_of_fmap_2 (fun '(k, t) => {| msg_id := Some k;
                                                     msg_text := t |})
               l (NumKey g, t)).
      rewrite (insert_record_perm _ _ _ _ Hins). left.
    + apply insert_record_None in Hins as [v' Hin].
      destruct (Hgen g v' Hin); lia.
  - by apply Z.ltb_lt in Hg as ->.
Qed.

Lemma saveMessageToOutbox_plain_witness :
  exists w',
    saveMessageToOutbox (plain "third") (queued_two echo_server)
    = (Normal tt, w') /\
    {| msg_id := Some (NumKey 3); msg_text := "third" |}
    ∈ store_getAll (outbox w') /\
    generator (outbox w') = 4.
Proof.
  destruct (saveMessageToOutbox_plain (queued_two echo_server) "third")
    as [Hfresh _].
  - apply queued_two_ok.
  - apply Hfresh. vm_compute. discriminate.
Defined.

(** X24.  A message whose [id] is the key of a record already in such an
    outbox is refused: the save throws [ConstraintError] and the world is
    as it was. *)
Theorem saveMessageToOutbox_duplicate (w : World) (k : IDBKey)
    (t t0 : string) :
  store_ok (outbox w) ->
  (k, t0) ∈ records (outbox w) ->
  saveMessageToOutbox {| msg_id := Some k; msg_text := t |} w
  = (Throw ConstraintError, w).
Proof.
  intros [Hs _] Hin. unfold saveMessageToOutbox, store_add. simpl.
  by rewrite (insert_record_present k t t0 _ Hs Hin).
Qed.

Lemma saveMessageToOutbox_duplicate_witness :
  saveMessageToOutbox {| msg_id := Some (NumKey 2); msg_text := "again" |}
    (queued_two echo_server)
  = (Throw ConstraintError, queued_two echo_server).
Proof.
  apply (saveMessageToOutbox_duplicate (queued_two echo_server) (NumKey 2)
           "again" "second").
  - apply queued_two_ok.
  - simpl. right. left.
Defined.

(** ** Ids and the clock *)

(** X30.  Two calls of [createNewChat] that read different milliseconds
    return different ids. *)
Theorem createNewChat_ids_differ (w : World) :
  clock w (S (clock_reads w)) <> clock w (clock_reads w) ->
  exists id1 id2 w1 w2,
    createNewChat w = (Normal id1, w1) /\
    createNewChat w1 = (Normal id2, w2) /\
    id1 <> id2 /\
    chats w2 = chats w ++ [Chat.mk id1 []; Chat.mk id2 []].
Proof.
  intros Hne. unfold createNewChat, Date_now. js_unfold. simpl.
  do 4 eexists. split; [reflexivity|]. simpl. split; [reflexivity|]. simpl.
  split; [|by rewrite <- app_assoc].
  unfold Builtin.toString. intros Heq. apply (inj pretty) in Heq. done.
Qed.

Lemma createNewChat_ids_differ_witness :
  exists id1 id2 w1 w2,
    createNewChat hello_world = (Normal id1, w1) /\
    createNewChat w1 = (Normal id2, w2) /\
    id1 <> id2 /\
    chats w2 = chats hello_world ++ [Chat.mk id1 []; Chat.mk id2 []].
Proof. apply (createNewChat_ids_differ hello_world). simpl. lia. Defined.
